(** * my_ai_game: a side-scrolling runner

    A shallow embedding of the simulation core of the game: the AABB
    collision test, the level generator [GenMap], the obstacle model, the
    player update and the session controller's pickup handling.

    Conventions.
    - A Go [float64] (and the [float32] random draws) is an exact rational
      of type [Q]: finite values, no rounding.  Assignments are Leibniz
      equalities; comparisons go through [Qltb] and [Qleb].
    - A Go [int] is a [Z]; slice positions are [nat].
    - A slice of pointers that is updated by index is a [list] with stdpp's
      lookup and insert; an index out of range (a Go panic) is [None].
    - [rand.Rand] is a stream of draws with a cursor.
    - The input runtime is a function from keys to [bool]; an audio player
      counts how often it was restarted. *)

From Stdlib Require Import ZArith QArith Qminmax Bool Lia.
From stdpp Require Import base option list.

Local Open Scope Z_scope.

(** ** Numbers *)

Definition Qltb (x y : Q) : bool :=
  (Qnum x * Zpos (Qden y) <? Qnum y * Zpos (Qden x))%Z.

Definition Qleb (x y : Q) : bool :=
  (Qnum x * Zpos (Qden y) <=? Qnum y * Zpos (Qden x))%Z.

(** A Go [int] after an arithmetic operation: 64 bits, two's complement. *)
Definition wrap64 (z : Z) : Z := ((z + 2 ^ 63) mod 2 ^ 64 - 2 ^ 63)%Z.

(** ** Collision primitive (src/unnamed/part_000) *)

Record Box := mkBox { left : Q; right : Q; top : Q; bottom : Q }.

Class CollisionBox (A : Type) := GetCollisionBox : A -> Box.

Definition CheckCollision {A B} `{CollisionBox A} `{CollisionBox B}
    (a : A) (b : B) : bool :=
  let '(mkBox aLeft aRight aTop aBottom) := GetCollisionBox a in
  let '(mkBox bLeft bRight bTop bBottom) := GetCollisionBox b in
  Qltb aLeft bRight && Qltb bLeft aRight && Qltb aTop bBottom && Qltb bTop aBottom.

#[global] Instance Box_CollisionBox : CollisionBox Box := fun b => b.

(** ** Level generator (src/unnamed/part_003, second file) *)

Record MapItem := mkMapItem {
  Index : Z;
  HasRoad : bool;
  HasObstacle : bool;
  HasMonster : bool;
  HasTool : bool
}.

Definition setHasMonster (b : bool) (it : MapItem) : MapItem :=
  mkMapItem (Index it) (HasRoad it) (HasObstacle it) b (HasTool it).

(** The random source: [draws] is the whole stream, [cursor] the number of
    values already consumed. *)
Record Rand := mkRand { draws : nat -> Q; cursor : nat }.

Definition Float32 (r : Rand) : Q * Rand :=
  (draws r (cursor r), mkRand (draws r) (S (cursor r))).

(** The variables of [GenMap] that live across the iterations of its first
    loop. *)
Record GenState := mkGenState {
  random : Rand;
  result : list MapItem;
  noRoadCount : Z;
  prevHasObstacle : bool;
  prevHasMonster : bool
}.

(** Body of the first loop of [GenMap], at index [i]. *)
Definition genCell (i : Z) (st : GenState) : GenState :=
  let rnd := random st in
  let '(hasRoad, noRoad, rnd) :=
    if i <? 10 then (true, 0, rnd)
    else if 2 <=? noRoadCount st then (true, 0, rnd)
    else
      let '(x, rnd') := Float32 rnd in
      let road := Qltb x (8 # 10) in
      (road, if road then 0 else wrap64 (noRoadCount st + 1), rnd') in
  let '(hasObstacle, prevObstacle, rnd) :=
    if hasRoad && negb (prevHasObstacle st) then
      let '(x, rnd') := Float32 rnd in
      (Qltb x (1 # 10), Qltb x (1 # 10), rnd')
    else (false, false, rnd) in
  let '(hasMonster, prevMonster, rnd) :=
    if hasRoad && negb hasObstacle && negb (prevHasMonster st) then
      let '(x, rnd') := Float32 rnd in
      (Qltb x (5 # 100), Qltb x (5 # 100), rnd')
    else (false, false, rnd) in
  let '(x, rnd) := Float32 rnd in
  let hasTool := Qltb x (3 # 100) in
  mkGenState rnd
    (result st ++ [mkMapItem i hasRoad hasObstacle hasMonster hasTool])
    noRoad prevObstacle prevMonster.

Definition genLoop (n : nat) (st : GenState) : GenState :=
  fold_left (fun st i => genCell (Z.of_nat i) st) (seq 0 n) st.

(** Body of the second loop of [GenMap], at index [i]: [None] is an index
    out of range. *)
Definition clearEdgeMonster (count : Z) (i : nat) (res : list MapItem)
    : option (list MapItem) :=
  item ← res !! i;
  if negb (HasRoad item) then Some res
  else
    isRoadStart ←
      (if Z.of_nat i =? 0 then Some true
       else prev ← res !! (i - 1)%nat; Some (negb (HasRoad prev)));
    isRoadEnd ←
      (if Z.of_nat i =? count - 1 then Some true
       else next ← res !! (i + 1)%nat; Some (negb (HasRoad next)));
    if isRoadStart || isRoadEnd
    then Some (<[i := setHasMonster false item]> res)
    else Some res.

Fixpoint clearLoop (count : Z) (idx : list nat) (res : list MapItem)
    : option (list MapItem) :=
  match idx with
  | [] => Some res
  | i :: idx' => res' ← clearEdgeMonster count i res; clearLoop count idx' res'
  end.

Definition GenMap (count : Z) (rnd : Rand) : option (list MapItem) :=
  if count <=? 0 then Some []
  else
    let st := genLoop (Z.to_nat count) (mkGenState rnd [] 0 false false) in
    clearLoop count (seq 0 (Z.to_nat count)) (result st).

(** Boxes used in the examples: [boxB] overlaps [boxA] on both axes,
    [boxC] only touches its right edge, [boxD] only its bottom edge. *)
Definition boxA : Box := mkBox 0 10 0 10.
Definition boxB : Box := mkBox 9 20 9 20.
Definition boxC : Box := mkBox 10 20 0 10.
Definition boxD : Box := mkBox 0 10 10 20.

(** Streams used in the examples. *)
Definition constStream (q : Q) : Rand := mkRand (fun _ => q) 0.

(** Draw 30 sends cell 10 to "no road", draw 31 gives it a pickup. *)
Definition toolOnGapStream : Rand :=
  mkRand (fun n => if (n =? 30)%nat then 9 # 10
                   else if (n =? 31)%nat then 0 # 1 else 1 # 2) 0.

(** ** Properties of levels used in the statements *)

(** Flag of the last cell of a level prefix; [false] for the empty prefix. *)
Definition lastFlag (f : MapItem -> bool) (l : list MapItem) : bool :=
  match last l with Some c => f c | None => false end.

(** No two consecutive cells both carry flag [f]. *)
Definition noAdjacent (f : MapItem -> bool) (l : list MapItem) : Prop :=
  forall j c c', l !! j = Some c -> l !! S j = Some c' -> f c && f c' = false.

Definition cellOk (c : MapItem) : Prop :=
  (HasObstacle c = true -> HasRoad c = true)
  /\ (HasMonster c = true -> HasRoad c = true).

(** Invariant of the first loop of [GenMap] after [n] iterations. *)
Record GenInv (n : nat) (st : GenState) : Prop := mkGenInv {
  inv_length : length (result st) = n;
  inv_index : forall j c, result st !! j = Some c -> Index c = Z.of_nat j;
  inv_first10 :
    forall j c, result st !! j = Some c -> (j < 10)%nat -> HasRoad c = true;
  inv_ok : Forall cellOk (result st);
  inv_obstacle : noAdjacent HasObstacle (result st);
  inv_monster : noAdjacent HasMonster (result st);
  inv_prevObstacle : prevHasObstacle st = lastFlag HasObstacle (result st);
  inv_prevMonster : prevHasMonster st = lastFlag HasMonster (result st)
}.

(** The second loop only ever clears a monster flag. *)
Definition cleared (c c' : MapItem) : Prop :=
  c' = c \/ c' = setHasMonster false c.

(** Cell [j] of [l] starts or ends a maximal run of road cells: it is the
    first or the last cell of the level, or a neighbour has no road. *)
Definition isRunEdge (l : list MapItem) (j : nat) : Prop :=
  j = 0%nat \/ S j = length l
  \/ (exists c, l !! (j - 1)%nat = Some c /\ HasRoad c = false)
  \/ (exists c, l !! S j = Some c /\ HasRoad c = false).

Local Open Scope Q_scope.

(** ** Animation (src/unnamed/part_003, first file) *)

Definition gameFPS : Q := 60.

Inductive AnimationState :=
| StateIdle | StateMove | StateJumpBefore | StateJumpLoop | StateJumpEnd
| StateDie | StateFly.

#[global] Instance AnimationState_eq_dec : EqDecision AnimationState.
Proof. solve_decision. Defined.

(** A clip.  The sprite sheet and the frame size in pixels only serve
    drawing and are left out. *)
Record Animation := mkAnimation {
  FrameCount : Z;
  Loop : bool;
  FPS : Q;
  OriginOffsetY : Q
}.

(** [animations] is the Go map from state to clip; a state without a clip
    maps to [None] (a nil pointer). *)
Record AnimationController := mkAnimationController {
  currentState : AnimationState;
  currentFrame : Q;
  animations : AnimationState -> option Animation
}.

(** The table built by [NewAnimationController]. *)
Definition loadedAnimations (s : AnimationState) : option Animation :=
  Some match s with
       | StateIdle => mkAnimation 39 true 20 22
       | StateMove => mkAnimation 26 true 20 45
       | StateJumpBefore => mkAnimation 10 false 27 16
       | StateJumpLoop => mkAnimation 1 true 1 35
       | StateJumpEnd => mkAnimation 7 false 27 13
       | StateDie => mkAnimation 30 false 20 18
       | StateFly => mkAnimation 22 true 20 0
       end.

Definition NewAnimationController : AnimationController :=
  mkAnimationController StateIdle 0 loadedAnimations.

Definition SetState (state : AnimationState) (ac : AnimationController)
    : AnimationController :=
  if bool_decide (currentState ac <> state)
  then mkAnimationController state 0 (animations ac)
  else ac.

Definition GetState (ac : AnimationController) : AnimationState :=
  currentState ac.

(** The cursor arithmetic of [Update] and the threshold of [IsFinished] are
    exact here, where binary64 rounds; the statements below do not depend
    on the values they compute. *)
Definition AnimationController_Update (ac : AnimationController)
    : AnimationController :=
  match animations ac (currentState ac) with
  | None => ac
  | Some anim =>
      let frameStep := FPS anim / gameFPS in
      let frame := currentFrame ac + frameStep in
      let frame :=
        if Qleb (inject_Z (FrameCount anim)) frame then
          if Loop anim then frame - inject_Z (FrameCount anim)
          else inject_Z (FrameCount anim) - 1
        else frame in
      mkAnimationController (currentState ac) frame (animations ac)
  end.

Definition IsFinished (ac : AnimationController) : bool :=
  match animations ac (currentState ac) with
  | None => false
  | Some anim =>
      if Loop anim then false
      else Qleb (inject_Z (FrameCount anim) - 0.1) (currentFrame ac)
  end.

(** ** Obstacle model (src/obstacle.go) *)

Inductive ObstacleType :=
| ObstacleTypeGrass | ObstacleTypeObstacle | ObstacleTypeMonster
| ObstacleTypeTool.

#[global] Instance ObstacleType_eq_dec : EqDecision ObstacleType.
Proof. solve_decision. Defined.

(** Fields [X], [Y] and [Type] of the Go struct carry the prefix
    [Obstacle_]; the image is left out. *)
Record Obstacle := mkObstacle {
  Dx : Q; Dy : Q;
  Obstacle_X : Q; Obstacle_Y : Q;
  Width : Q; Height : Q;
  Obstacle_Type : ObstacleType
}.

Definition NewObstacle (dx dy x y width height : Q) (obstacleType : ObstacleType)
    : Obstacle :=
  mkObstacle dx dy x y width height obstacleType.

#[global] Instance Obstacle_CollisionBox : CollisionBox Obstacle := fun o =>
  mkBox (Obstacle_X o) (Obstacle_X o + Width o)
        (Obstacle_Y o) (Obstacle_Y o + Height o).

(** ** Player (src/player.go) *)

Definition playerSpeed : Q := 5.5.
Definition playerCollisionWidth : Q := 60.
Definition playerCollisionHeight : Q := 346.
Definition gravity : Q := 0.6.
Definition jumpSpeed : Q := -18.
Definition flySpeed : Q := 15.
Definition flyDurationFrames : Z := 300.

(** Constants of src/unnamed/part_002. *)
Definition windowWidth : Z := 1280.
Definition windowHeight : Z := 720.
Definition mapItemWidth : Q := 120.
Definition cameraSpeed : Q := 5.

(** The keys the game polls, and the state of the keyboard in one tick
    ([ebiten.IsKeyPressed]). *)
Inductive Key := KeyArrowLeft | KeyA | KeyArrowRight | KeyD | KeySpace.

Definition Keyboard := Key -> bool.

(** An [audio.Player]: [restarts] counts the calls of [Rewind] followed by
    [Play]. *)
Record AudioPlayer := mkAudioPlayer { restarts : nat }.

Definition RewindAndPlay (a : AudioPlayer) : AudioPlayer :=
  mkAudioPlayer (S (restarts a)).

(** Field [Animation] carries the prefix [Player_]; [jumpSound] and
    [dieSound] are [None] for a nil player. *)
Record Player := mkPlayer {
  X : Q;
  Y : Q;
  VelocityY : Q;
  IsOnGround : bool;
  wasSpaceDown : bool;
  wasOnGround : bool;
  FacingLeft : bool;
  Player_Animation : AnimationController;
  jumpSound : option AudioPlayer;
  dieSound : option AudioPlayer;
  IsDead : bool;
  hasPlayedDieSound : bool;
  IsFlying : bool;
  flyFrameCount : Z
}.

(** Field assignments. *)
Definition setX (v : Q) (p : Player) : Player :=
  mkPlayer v (Y p) (VelocityY p) (IsOnGround p) (wasSpaceDown p)
    (wasOnGround p) (FacingLeft p) (Player_Animation p) (jumpSound p)
    (dieSound p) (IsDead p) (hasPlayedDieSound p) (IsFlying p)
    (flyFrameCount p).
Definition setY (v : Q) (p : Player) : Player :=
  mkPlayer (X p) v (VelocityY p) (IsOnGround p) (wasSpaceDown p)
    (wasOnGround p) (FacingLeft p) (Player_Animation p) (jumpSound p)
    (dieSound p) (IsDead p) (hasPlayedDieSound p) (IsFlying p)
    (flyFrameCount p).
Definition setVelocityY (v : Q) (p : Player) : Player :=
  mkPlayer (X p) (Y p) v (IsOnGround p) (wasSpaceDown p)
    (wasOnGround p) (FacingLeft p) (Player_Animation p) (jumpSound p)
    (dieSound p) (IsDead p) (hasPlayedDieSound p) (IsFlying p)
    (flyFrameCount p).
Definition setIsOnGround (v : bool) (p : Player) : Player :=
  mkPlayer (X p) (Y p) (VelocityY p) v (wasSpaceDown p)
    (wasOnGround p) (FacingLeft p) (Player_Animation p) (jumpSound p)
    (dieSound p) (IsDead p) (hasPlayedDieSound p) (IsFlying p)
    (flyFrameCount p).
Definition setWasSpaceDown (v : bool) (p : Player) : Player :=
  mkPlayer (X p) (Y p) (VelocityY p) (IsOnGround p) v
    (wasOnGround p) (FacingLeft p) (Player_Animation p) (jumpSound p)
    (dieSound p) (IsDead p) (hasPlayedDieSound p) (IsFlying p)
    (flyFrameCount p).
Definition setWasOnGround (v : bool) (p : Player) : Player :=
  mkPlayer (X p) (Y p) (VelocityY p) (IsOnGround p) (wasSpaceDown p)
    v (FacingLeft p) (Player_Animation p) (jumpSound p)
    (dieSound p) (IsDead p) (hasPlayedDieSound p) (IsFlying p)
    (flyFrameCount p).
Definition setFacingLeft (v : bool) (p : Player) : Player :=
  mkPlayer (X p) (Y p) (VelocityY p) (IsOnGround p) (wasSpaceDown p)
    (wasOnGround p) v (Player_Animation p) (jumpSound p)
    (dieSound p) (IsDead p) (hasPlayedDieSound p) (IsFlying p)
    (flyFrameCount p).
Definition setAnimation (v : AnimationController) (p : Player) : Player :=
  mkPlayer (X p) (Y p) (VelocityY p) (IsOnGround p) (wasSpaceDown p)
    (wasOnGround p) (FacingLeft p) v (jumpSound p)
    (dieSound p) (IsDead p) (hasPlayedDieSound p) (IsFlying p)
    (flyFrameCount p).
Definition setJumpSound (v : option AudioPlayer) (p : Player) : Player :=
  mkPlayer (X p) (Y p) (VelocityY p) (IsOnGround p) (wasSpaceDown p)
    (wasOnGround p) (FacingLeft p) (Player_Animation p) v
    (dieSound p) (IsDead p) (hasPlayedDieSound p) (IsFlying p)
    (flyFrameCount p).
Definition setDieSound (v : option AudioPlayer) (p : Player) : Player :=
  mkPlayer (X p) (Y p) (VelocityY p) (IsOnGround p) (wasSpaceDown p)
    (wasOnGround p) (FacingLeft p) (Player_Animation p) (jumpSound p)
    v (IsDead p) (hasPlayedDieSound p) (IsFlying p)
    (flyFrameCount p).
Definition setIsDead (v : bool) (p : Player) : Player :=
  mkPlayer (X p) (Y p) (VelocityY p) (IsOnGround p) (wasSpaceDown p)
    (wasOnGround p) (FacingLeft p) (Player_Animation p) (jumpSound p)
    (dieSound p) v (hasPlayedDieSound p) (IsFlying p)
    (flyFrameCount p).
Definition setHasPlayedDieSound (v : bool) (p : Player) : Player :=
  mkPlayer (X p) (Y p) (VelocityY p) (IsOnGround p) (wasSpaceDown p)
    (wasOnGround p) (FacingLeft p) (Player_Animation p) (jumpSound p)
    (dieSound p) (IsDead p) v (IsFlying p)
    (flyFrameCount p).
Definition setIsFlying (v : bool) (p : Player) : Player :=
  mkPlayer (X p) (Y p) (VelocityY p) (IsOnGround p) (wasSpaceDown p)
    (wasOnGround p) (FacingLeft p) (Player_Animation p) (jumpSound p)
    (dieSound p) (IsDead p) (hasPlayedDieSound p) v
    (flyFrameCount p).
Definition setFlyFrameCount (v : Z) (p : Player) : Player :=
  mkPlayer (X p) (Y p) (VelocityY p) (IsOnGround p) (wasSpaceDown p)
    (wasOnGround p) (FacingLeft p) (Player_Animation p) (jumpSound p)
    (dieSound p) (IsDead p) (hasPlayedDieSound p) (IsFlying p)
    v.

(** [NewPlayer]; the two sounds are what the audio manager could load. *)
Definition NewPlayer (x y : Q) (jump die : option AudioPlayer) : Player :=
  mkPlayer x y 0 false false true false NewAnimationController jump die
    false false false 0.

#[global] Instance Player_CollisionBox : CollisionBox Player := fun p =>
  let halfWidth := playerCollisionWidth / 2 in
  mkBox (X p - halfWidth) (X p + halfWidth) (Y p - playerCollisionHeight) (Y p).

Definition updateFlyingState (mapWidth : Q) (p : Player) : Player :=
  let p := setFlyFrameCount (wrap64 (flyFrameCount p + 1)) p in
  if (flyDurationFrames <=? flyFrameCount p)%Z then
    let p := setIsFlying false p in
    let p := setFlyFrameCount 0 p in
    setAnimation (SetState StateJumpLoop (Player_Animation p)) p
  else
    let newX := X p + flySpeed in
    let maxX := mapWidth - playerCollisionWidth / 2 in
    if Qleb newX maxX then setX newX p else p.

Definition updateAnimationState (isMoving : bool) (p : Player) : Player :=
  let currentState := GetState (Player_Animation p) in
  let switch (s : AnimationState) (p : Player) :=
    setAnimation (SetState s (Player_Animation p)) p in
  if IsDead p then p
  else if IsFlying p then
    if bool_decide (currentState <> StateFly) then switch StateFly p else p
  else
    let p :=
      if wasOnGround p && negb (IsOnGround p) then
        if bool_decide (currentState <> StateJumpBefore)
        then switch StateJumpBefore p else p
      else p in
    let p :=
      if negb (wasOnGround p) && IsOnGround p then
        if bool_decide (currentState <> StateJumpEnd)
        then switch StateJumpEnd p else p
      else p in
    let p :=
      match currentState with
      | StateJumpBefore =>
          if IsFinished (Player_Animation p) then switch StateJumpLoop p else p
      | StateJumpLoop => p
      | StateJumpEnd =>
          if IsFinished (Player_Animation p) then
            if isMoving then switch StateMove p else switch StateIdle p
          else p
      | StateIdle | StateMove =>
          if IsOnGround p then
            if isMoving then
              if bool_decide (currentState <> StateMove)
              then switch StateMove p else p
            else
              if bool_decide (currentState <> StateIdle)
              then switch StateIdle p else p
          else p
      | StateDie | StateFly => p
      end in
    setWasOnGround (IsOnGround p) p.

(** The loop of [wouldCollideHorizontal], run with [p.X] already set to
    the candidate position; the function restores [p.X] before it returns. *)
Fixpoint wouldCollideLoop (obstacles : list Obstacle) (p : Player) : bool :=
  match obstacles with
  | [] => false
  | obstacle :: rest =>
      if bool_decide (Obstacle_Type obstacle = ObstacleTypeMonster)
         || bool_decide (Obstacle_Type obstacle = ObstacleTypeTool)
      then wouldCollideLoop rest p
      else if CheckCollision p obstacle then true
      else wouldCollideLoop rest p
  end.

Definition wouldCollideHorizontal (newX : Q) (obstacles : list Obstacle)
    (p : Player) : bool :=
  wouldCollideLoop obstacles (setX newX p).

Definition handleDeath (p : Player) : Player :=
  let p :=
    if negb (IsDead p) then
      let p := setIsDead true p in
      setAnimation (SetState StateDie (Player_Animation p)) p
    else p in
  match dieSound p with
  | Some snd =>
      if negb (hasPlayedDieSound p) then
        let p := setDieSound (Some (RewindAndPlay snd)) p in
        setHasPlayedDieSound true p
      else p
  | None => p
  end.

Definition checkDeath (cameraX : Q) (p : Player) : Player :=
  let '(mkBox left right top bottom) := GetCollisionBox p in
  let screenLeft := left - cameraX in
  let screenRight := right - cameraX in
  let screenTop := top in
  let screenBottom := bottom in
  if Qltb screenRight 0 || Qltb (inject_Z windowWidth) screenLeft
     || Qltb screenBottom 0 || Qltb (inject_Z windowHeight) screenTop
  then handleDeath p else p.

(** The player is snapped onto the top edge of an obstacle. *)
Definition land (obstacleTop : Q) (p : Player) : Player :=
  let p := setY obstacleTop p in
  let p := setVelocityY 0 p in
  setIsOnGround true p.

(** The loop of [checkCollisionWithObstacles]. *)
Fixpoint collisionLoop (obstacles : list Obstacle) (p : Player) : Player :=
  match obstacles with
  | [] => p
  | obstacle :: rest =>
      if negb (CheckCollision p obstacle) then collisionLoop rest p
      else
        match Obstacle_Type obstacle with
        | ObstacleTypeMonster => handleDeath p
        | ObstacleTypeTool => collisionLoop rest p
        | ObstacleTypeGrass | ObstacleTypeObstacle =>
            let obstacleTop := top (GetCollisionBox obstacle) in
            if Qleb 0 (VelocityY p) && Qltb obstacleTop (Y p)
            then collisionLoop rest (land obstacleTop p)
            else collisionLoop rest p
        end
  end.

Definition checkCollisionWithObstacles (obstacles : list Obstacle) (p : Player)
    : Player :=
  collisionLoop obstacles (setIsOnGround false p).

(** [Player.Update], lines 92 to 114: the two horizontal moves.  The result
    carries [isMoving]. *)
Definition moveHorizontal (keys : Keyboard) (obstacles : list Obstacle)
    (mapWidth : Q) (p : Player) : Player * bool :=
  let isMoving := false in
  let '(p, isMoving) :=
    if keys KeyArrowLeft || keys KeyA then
      let newX := X p - playerSpeed in
      let minX := playerCollisionWidth / 2 in
      let p :=
        if Qleb minX newX && negb (wouldCollideHorizontal newX obstacles p)
        then setFacingLeft true (setX newX p) else p in
      (p, true)
    else (p, isMoving) in
  if keys KeyArrowRight || keys KeyD then
    let newX := X p + playerSpeed in
    let maxX := mapWidth - playerCollisionWidth / 2 in
    let p :=
      if Qleb newX maxX && negb (wouldCollideHorizontal newX obstacles p)
      then setFacingLeft false (setX newX p) else p in
    (p, true)
  else (p, isMoving).

(** [Player.Update], lines 116 to 128: the jump trigger. *)
Definition jumpTrigger (spacePressed : bool) (p : Player) : Player :=
  let p :=
    if IsOnGround p && spacePressed && negb (wasSpaceDown p) then
      let p := setVelocityY jumpSpeed p in
      let p := setIsOnGround false p in
      match jumpSound p with
      | Some snd => setJumpSound (Some (RewindAndPlay snd)) p
      | None => p
      end
    else p in
  setWasSpaceDown spacePressed p.

(** [Player.Update], lines 130 to 134: gravity and the vertical move. *)
Definition applyGravity (p : Player) : Player :=
  let p := setVelocityY (VelocityY p + gravity) p in
  setY (Y p + VelocityY p) p.

Definition Player_Update (obstacles : list Obstacle) (mapWidth cameraX : Q)
    (keys : Keyboard) (p : Player) : Player :=
  let p := if negb (IsDead p) then checkDeath cameraX p else p in
  if IsDead p then
    setAnimation (AnimationController_Update (Player_Animation p)) p
  else if IsFlying p then
    let p := updateFlyingState mapWidth p in
    let p := updateAnimationState false p in
    setAnimation (AnimationController_Update (Player_Animation p)) p
  else
    let '(p, isMoving) := moveHorizontal keys obstacles mapWidth p in
    let spacePressed := keys KeySpace in
    let p := jumpTrigger spacePressed p in
    let p := applyGravity p in
    let p := checkCollisionWithObstacles obstacles p in
    let p := updateAnimationState isMoving p in
    setAnimation (AnimationController_Update (Player_Animation p)) p.

(** ** Session controller (src/unnamed/part_002) *)

(** [Player] is a pointer that may be nil, hence [option]; the field
    carries the prefix [Game_].  [bgmPlaying] is the background-music
    player of the audio manager: [None] when it could not be loaded,
    otherwise whether it is playing.  Images are left out. *)
Record Game := mkGame {
  MapItems : list MapItem;
  Obstacles : list Obstacle;
  Game_Player : option Player;
  CameraX : Q;
  bgmPlaying : option bool;
  hasStoppedBGM : bool
}.

Definition setObstacles (v : list Obstacle) (g : Game) : Game :=
  mkGame (MapItems g) v (Game_Player g) (CameraX g) (bgmPlaying g)
    (hasStoppedBGM g).
Definition setPlayer (v : option Player) (g : Game) : Game :=
  mkGame (MapItems g) (Obstacles g) v (CameraX g) (bgmPlaying g)
    (hasStoppedBGM g).
Definition setCameraX (v : Q) (g : Game) : Game :=
  mkGame (MapItems g) (Obstacles g) (Game_Player g) v (bgmPlaying g)
    (hasStoppedBGM g).
Definition setBgmPlaying (v : option bool) (g : Game) : Game :=
  mkGame (MapItems g) (Obstacles g) (Game_Player g) (CameraX g) v
    (hasStoppedBGM g).
Definition setHasStoppedBGM (v : bool) (g : Game) : Game :=
  mkGame (MapItems g) (Obstacles g) (Game_Player g) (CameraX g)
    (bgmPlaying g) v.

(** What [removeTouchedTools] does to the player at a touched pickup. *)
Definition touchTool (cameraX : Q) (p : Player) : Player :=
  let p :=
    if negb (IsFlying p) then
      let p := setIsFlying true p in
      let p := setY 240 p in
      let p := setX (cameraX + inject_Z windowWidth / 2) p in
      setAnimation (SetState StateFly (Player_Animation p)) p
    else p in
  setFlyFrameCount 0 p.

(** Body of the loop of [removeTouchedTools] at index [i]; [None] is an
    index out of range. *)
Definition removeToolAt (i : nat) (p : Player) (g : Game)
    : option (Player * Game) :=
  obstacle ← Obstacles g !! i;
  if bool_decide (Obstacle_Type obstacle = ObstacleTypeTool)
     && CheckCollision p obstacle
  then
    Some (touchTool (CameraX g) p,
          setObstacles (take i (Obstacles g) ++ drop (S i) (Obstacles g)) g)
  else Some (p, g).

(** The loop [for i := len - 1; i >= 0; i--], entered with [n = len]. *)
Fixpoint removeLoop (n : nat) (p : Player) (g : Game) : option (Player * Game) :=
  match n with
  | O => Some (p, g)
  | S i => '(p, g) ← removeToolAt i p g; removeLoop i p g
  end.

Definition removeTouchedTools (g : Game) : option Game :=
  match Game_Player g with
  | None => Some g
  | Some p =>
      '(p, g) ← removeLoop (length (Obstacles g)) p g;
      Some (setPlayer (Some p) g)
  end.

Definition PauseBGM (g : Game) : Game :=
  match bgmPlaying g with
  | Some true => setBgmPlaying (Some false) g
  | _ => g
  end.

Definition updateCamera (g : Game) : Game :=
  if match Game_Player g with Some p => IsDead p | None => false end then g
  else
    let maxCameraX :=
      inject_Z (Z.of_nat (length (MapItems g))) * mapItemWidth
      - inject_Z windowWidth in
    let maxCameraX := if Qltb maxCameraX 0 then 0 else maxCameraX in
    let currentSpeed :=
      if match Game_Player g with Some p => IsFlying p | None => false end
      then 15 else cameraSpeed in
    if Qltb (CameraX g) maxCameraX then
      let g := setCameraX (CameraX g + currentSpeed) g in
      if Qltb maxCameraX (CameraX g) then setCameraX maxCameraX g else g
    else g.

Definition Game_Update (keys : Keyboard) (g : Game) : option Game :=
  match Game_Player g with
  | Some p =>
      let mapWidth := inject_Z (Z.of_nat (length (MapItems g))) * mapItemWidth in
      let p := Player_Update (Obstacles g) mapWidth (CameraX g) keys p in
      let g := setPlayer (Some p) g in
      if IsDead p then
        if negb (hasStoppedBGM g)
        then Some (setHasStoppedBGM true (PauseBGM g))
        else Some g
      else
        g ← removeTouchedTools g;
        Some (updateCamera g)
  | None => Some (updateCamera g)
  end.

(** ** Names for parts of [Player.Update] and inputs for the examples *)

(** [Player.Update], lines 130 to 143: what follows the jump trigger. *)
Definition finishTick (isMoving : bool) (obstacles : list Obstacle) (p : Player)
    : Player :=
  let p := applyGravity p in
  let p := checkCollisionWithObstacles obstacles p in
  let p := updateAnimationState isMoving p in
  setAnimation (AnimationController_Update (Player_Animation p)) p.

(** [Player.Update], lines 80 to 88: the tick of a flying player. *)
Definition flyingTick (mapWidth : Q) (p : Player) : Player :=
  let p := updateFlyingState mapWidth p in
  let p := updateAnimationState false p in
  setAnimation (AnimationController_Update (Player_Animation p)) p.

Definition noKeys : Keyboard := fun _ => false.
Definition spaceHeld : Keyboard :=
  fun k => match k with KeySpace => true | _ => false end.

(** Width of a level of 512 cells, as [Game.Update] computes it. *)
Definition levelWidth : Q := 512 * mapItemWidth.

(** A ground tile with its top edge at y = 600, under the player below. *)
Definition groundTile : Obstacle :=
  NewObstacle 600 600 600 600 120 120 ObstacleTypeGrass.

(** A player standing on [groundTile], with both sounds loaded. *)
Definition standingPlayer : Player :=
  mkPlayer 640 600 0 true false true false NewAnimationController
    (Some (mkAudioPlayer 0)) (Some (mkAudioPlayer 0)) false false false 0.

Definition deadPlayer : Player :=
  handleDeath (setIsOnGround false (setVelocityY 7 standingPlayer)).

(** An entity the player can land on: ground or an obstacle. *)
Definition solid (o : Obstacle) : bool :=
  bool_decide (Obstacle_Type o = ObstacleTypeGrass)
  || bool_decide (Obstacle_Type o = ObstacleTypeObstacle).

(** A ground tile far to the right of the player of the examples, top edge
    at y = 600 as well. *)
Definition farTile : Obstacle :=
  NewObstacle 1000 600 1000 600 120 120 ObstacleTypeGrass.

(** An obstacle block standing on [groundTile]: top edge at y = 500. *)
Definition blockOnTile : Obstacle :=
  NewObstacle 600 500 600 500 120 100 ObstacleTypeObstacle.

(** A player in free fall, 5 pixels above the level of the tiles. *)
Definition fallingPlayer : Player :=
  mkPlayer 640 595 7 false false false false NewAnimationController
    (Some (mkAudioPlayer 0)) (Some (mkAudioPlayer 0)) false false false 0.

(** A low step standing on [groundTile]: top edge at y = 590. *)
Definition stepOnTile : Obstacle :=
  NewObstacle 600 590 600 590 120 10 ObstacleTypeObstacle.

(** A player falling fast over [groundTile], its feet 5 pixels above the
    step and 15 above the tile; gravity takes it to y = 603 in one tick. *)
Definition fastFallingPlayer : Player :=
  mkPlayer 640 585 17.4 false false false false NewAnimationController
    (Some (mkAudioPlayer 0)) (Some (mkAudioPlayer 0)) false false false 0.

(** A player walking on [blockOnTile], its head in the pickup of the same
    cell, in a game whose camera is at 0; no key is or was pressed. *)
Definition walkerOnBlock : Player :=
  mkPlayer 640 500 0 true false true false NewAnimationController
    (Some (mkAudioPlayer 0)) (Some (mkAudioPlayer 0)) false false false 0.

Definition gameWalkerAtPickup : Game :=
  mkGame [] [groundTile; blockOnTile;
             NewObstacle 600 120 600 120 120 120 ObstacleTypeTool]
    (Some walkerOnBlock) 0 (Some true) false.

(** The player of [gameWalkerAtPickup] on the last tick of the flight that
    the pickup starts: the grounded flag is still set, the jump key has
    not been recorded as held. *)
Definition flightEnding : Player :=
  mkPlayer 640 240 0 true false true false
    (SetState StateFly NewAnimationController)
    (Some (mkAudioPlayer 0)) (Some (mkAudioPlayer 0)) false false true 299.

(** [n] ticks of [Player.Update] in a row; tick [k] sees the camera at
    [cameraX k] and the keyboard [keys k]. *)
Fixpoint runTicks (obstacles : list Obstacle) (mapWidth : Q)
    (cameraX : nat -> Q) (keys : nat -> Keyboard) (n : nat) (p : Player)
    : Player :=
  match n with
  | O => p
  | S k =>
      Player_Update obstacles mapWidth (cameraX k) (keys k)
        (runTicks obstacles mapWidth cameraX keys k p)
  end.

(** A player that has just entered flight at the anchor of a camera at 0,
    the camera that follows it at the flight speed, and a flying player 35
    pixels from the right end of the level. *)
Definition flyingStart : Player :=
  mkPlayer 640 240 7 false false false false
    (SetState StateFly NewAnimationController)
    (Some (mkAudioPlayer 0)) (Some (mkAudioPlayer 0)) false false true 0.

Definition flightCamera (k : nat) : Q := 15 * inject_Z (Z.of_nat k).

Definition flyingAtEdge : Player :=
  setFlyFrameCount 10 (setX (levelWidth - 35) flyingStart).

(** The off-screen test of [checkDeath] spares the player on each of the
    [n] ticks that start with tick [k] in state [q]. *)
Fixpoint staysOnScreen (obstacles : list Obstacle) (mapWidth : Q)
    (cameraX : nat -> Q) (keys : nat -> Keyboard) (n k : nat) (q : Player)
    : bool :=
  match n with
  | O => true
  | S n' =>
      negb (IsDead (checkDeath (cameraX k) q))
      && staysOnScreen obstacles mapWidth cameraX keys n' (S k)
           (Player_Update obstacles mapWidth (cameraX k) (keys k) q)
  end.

(** ** Pickups: the scan of [removeTouchedTools] as a recursion on the list *)

(** The test of the loop of [removeTouchedTools]. *)
Definition touches (p : Player) (o : Obstacle) : bool :=
  bool_decide (Obstacle_Type o = ObstacleTypeTool) && CheckCollision p o.

(** The scan from the last entity to the first: the player that results
    and the entities that are kept. *)
Fixpoint scanTools (cameraX : Q) (obstacles : list Obstacle) (p : Player)
    : Player * list Obstacle :=
  match obstacles with
  | [] => (p, [])
  | o :: rest =>
      let '(p1, rest') := scanTools cameraX rest p in
      if touches p1 o then (touchTool cameraX p1, rest')
      else (p1, o :: rest')
  end.

(** Pickups of the examples, in cells 5, 8 and 9 of the level. *)
Definition toolAt (x : Q) : Obstacle :=
  NewObstacle x 120 x 120 120 120 ObstacleTypeTool.

(** A flying player 100 ticks into its flight, over the pickup of cell 5. *)
Definition flyingMidway : Player := setFlyFrameCount 100 flyingStart.

Definition gameFlyingOverTool : Game :=
  mkGame [] [groundTile; toolAt 600] (Some flyingMidway) 0 (Some true) false.

(** A jumping player astride the pickups of cells 8 and 9. *)
Definition jumpingPlayer : Player :=
  mkPlayer 1080 400 (-5) false true false false NewAnimationController
    (Some (mkAudioPlayer 1)) (Some (mkAudioPlayer 0)) false false false 0.

Definition gameTwoTools : Game :=
  mkGame [] [toolAt 960; groundTile; toolAt 1080] (Some jumpingPlayer) 0
    (Some true) false.

(** * Further definitions *)

From Stdlib Require Import Lqa.

(** ** Level generator: gaps *)

(** Number of cells without road at the end of a level prefix. *)
Definition gapRun (l : list MapItem) : nat :=
  fold_left (fun k c => if HasRoad c then O else S k) l O.

(** Invariant of the first loop of [GenMap] on [noRoadCount]: it is the
    length of the current gap, and no gap so far is longer than 2. *)
Record GapInv (st : GenState) : Prop := mkGapInv {
  gap_count : noRoadCount st = Z.of_nat (gapRun (result st));
  gap_prefix : forall k, (gapRun (take k (result st)) <= 2)%nat;
  gap_exclusive :
    Forall (fun c => HasObstacle c && HasMonster c = false) (result st)
}.

(** ** Player: entities that block walking *)

(** The entities [wouldCollideHorizontal] looks at: all but monsters and
    pickups. *)
Definition blocking (o : Obstacle) : bool :=
  negb (bool_decide (Obstacle_Type o = ObstacleTypeMonster)
        || bool_decide (Obstacle_Type o = ObstacleTypeTool)).

(** A monster standing on [groundTile], in the reach of the examples'
    player. *)
Definition monsterOnTile : Obstacle :=
  NewObstacle 600 443 625 455 70 145 ObstacleTypeMonster.

Definition arrowRight : Keyboard :=
  fun k => match k with KeyArrowRight => true | _ => false end.

(** ** Session controller: the camera limit and a game of the examples *)

(** The right limit of the camera, as [updateCamera] computes it. *)
Definition maxCameraX (g : Game) : Q :=
  let m := inject_Z (Z.of_nat (length (MapItems g))) * mapItemWidth
           - inject_Z windowWidth in
  if Qltb m 0 then 0 else m.

Definition isTool (o : Obstacle) : bool :=
  bool_decide (Obstacle_Type o = ObstacleTypeTool).

(** A level of 12 road cells with the dead player of the examples. *)
Definition flatLevel : list MapItem :=
  map (fun i => mkMapItem (Z.of_nat i) true false false false) (seq 0 12).

Definition gameOver : Game :=
  mkGame flatLevel [groundTile; toolAt 600] (Some deadPlayer) 100 (Some true)
    false.

Definition gameRunning : Game :=
  mkGame flatLevel [groundTile; toolAt 960] (Some standingPlayer) 100
    (Some true) false.

(** ** Building the entities (src/unnamed/part_002, [initObstacles]) *)

(** The sizes [initObstacles] reads from the bounds of the images. *)
Record Images := mkImages {
  grassWidth : Q; grassHeight : Q;
  obstacleWidth : Q; obstacleHeight : Q;
  monsterHeight : Q;
  toolWidth : Q
}.

(** What one iteration of the loop of [initObstacles] appends. *)
Definition cellObstacles (img : Images) (item : MapItem) : list Obstacle :=
  let grassY := inject_Z windowHeight - grassHeight img in
  let grassX := inject_Z (Index item) * grassWidth img in
  if HasRoad item then
    [NewObstacle grassX grassY grassX grassY (grassWidth img) (grassHeight img)
       ObstacleTypeGrass]
    ++ (if HasObstacle item then
          let obstacleY := grassY - obstacleHeight img in
          [NewObstacle grassX obstacleY grassX obstacleY (obstacleWidth img)
             (obstacleHeight img) ObstacleTypeObstacle]
        else [])
    ++ (if HasMonster item then
          let monsterDrawY := grassY - monsterHeight img in
          let monsterCollisionX := grassX + 25 in
          let monsterCollisionY := monsterDrawY + 12 in
          [NewObstacle grassX monsterDrawY monsterCollisionX monsterCollisionY
             70 145 ObstacleTypeMonster]
        else [])
    ++ (if HasTool item then
          let toolY := 120 in
          [NewObstacle grassX toolY grassX toolY (toolWidth img) 120
             ObstacleTypeTool]
        else [])
  else [].

Definition initObstacles (img : Images) (g : Game) : Game :=
  setObstacles
    (fold_left (fun acc item => acc ++ cellObstacles img item) (MapItems g) [])
    g.

Definition hasType (t : ObstacleType) (o : Obstacle) : bool :=
  bool_decide (Obstacle_Type o = t).

(** Sizes of the examples and a game without entities yet. *)
Definition someImages : Images := mkImages 120 120 120 100 157 120.

Definition emptyGame (cells : list MapItem) : Game :=
  mkGame cells [] None 0 None false.

(** * Proofs *)

Local Open Scope Z_scope.

(** ** Level generator *)

Lemma Qltb_lt (x y : Q) : Qltb x y = true <-> (x < y)%Q.
Proof. unfold Qltb, Qlt. apply Z.ltb_lt. Qed.

Lemma Qleb_le (x y : Q) : Qleb x y = true <-> (x <= y)%Q.
Proof. unfold Qleb, Qle. apply Z.leb_le. Qed.

Example GenMap_const_half :
  GenMap 3 (constStream (1 # 2)) =
  Some [mkMapItem 0 true false false false;
        mkMapItem 1 true false false false;
        mkMapItem 2 true false false false].
Proof. reflexivity. Qed.

Example GenMap_tool_on_gap :
  (fun l => l !! 10%nat) <$> GenMap 11 toolOnGapStream =
  Some (Some (mkMapItem 10 false false false true)).
Proof. vm_compute. reflexivity. Qed.

(** What one iteration of the first loop appends, in terms of the flags
    carried over from the previous cell. *)
Lemma genCell_spec (i : Z) (st : GenState) :
  exists c,
    result (genCell i st) = result st ++ [c]
    /\ Index c = i
    /\ (i < 10 -> HasRoad c = true)
    /\ (HasObstacle c = true -> HasRoad c = true /\ prevHasObstacle st = false)
    /\ (HasMonster c = true -> HasRoad c = true /\ prevHasMonster st = false)
    /\ prevHasObstacle (genCell i st) = HasObstacle c
    /\ prevHasMonster (genCell i st) = HasMonster c.
Proof.
  unfold genCell, Float32.
  destruct (i <? 10) eqn:Hi.
  - destruct (prevHasObstacle st), (prevHasMonster st); simpl;
      repeat match goal with
             | |- context [Qltb ?a ?b] => destruct (Qltb a b) eqn:?; simpl
             end;
      eexists; repeat split; simpl; intros; simpl in *; repeat split; congruence.
  - apply Z.ltb_ge in Hi.
    destruct (2 <=? noRoadCount st), (prevHasObstacle st), (prevHasMonster st);
      simpl;
      repeat match goal with
             | |- context [Qltb ?a ?b] => destruct (Qltb a b) eqn:?; simpl
             end;
      eexists; repeat split; simpl; intros; simpl in *; repeat split;
      try congruence; lia.
Qed.

Lemma genLoop_S (n : nat) (st : GenState) :
  genLoop (S n) st = genCell (Z.of_nat n) (genLoop n st).
Proof. unfold genLoop. now rewrite seq_S, fold_left_app. Qed.

Lemma noAdjacent_snoc (f : MapItem -> bool) (l : list MapItem) (c : MapItem) :
  noAdjacent f l -> (f c = true -> lastFlag f l = false) ->
  noAdjacent f (l ++ [c]).
Proof.
  intros Hl Hc j a b Ha Hb.
  destruct (decide (S j < length l)%nat) as [Hlt|Hge].
  - rewrite lookup_app_l in Ha by lia. rewrite lookup_app_l in Hb by lia.
    eauto.
  - assert (S j = length l) as Hj.
    { apply lookup_lt_Some in Hb. rewrite length_app in Hb. simpl in Hb. lia. }
    rewrite lookup_app_l in Ha by lia.
    rewrite lookup_app_r in Hb by lia.
    replace (S j - length l)%nat with 0%nat in Hb by lia.
    simpl in Hb. injection Hb as <-.
    destruct (f c) eqn:Hfc; [|apply andb_false_r].
    specialize (Hc eq_refl). unfold lastFlag in Hc.
    assert (last l = Some a) as Hlast.
    { rewrite last_lookup. rewrite <- Hj. simpl. exact Ha. }
    rewrite Hlast in Hc. now rewrite Hc.
Qed.

Lemma lastFlag_snoc (f : MapItem -> bool) (l : list MapItem) (c : MapItem) :
  lastFlag f (l ++ [c]) = f c.
Proof. unfold lastFlag. now rewrite last_snoc. Qed.

Lemma genCell_inv (n : nat) (st : GenState) :
  GenInv n st -> GenInv (S n) (genCell (Z.of_nat n) st).
Proof.
  intros [Hlen Hidx H10 Hok Ho Hm Hpo Hpm].
  destruct (genCell_spec (Z.of_nat n) st)
    as (c & Hres & Hi & Hr & Hco & Hcm & Hno & Hnm).
  split; rewrite ?Hres, ?lastFlag_snoc; trivial.
  - rewrite length_app. simpl. lia.
  - intros j a Ha. apply lookup_app_Some in Ha as [Ha|[Hge Ha]]; [eauto|].
    apply list_lookup_singleton_Some in Ha as [Hj <-]. lia.
  - intros j a Ha Hj. apply lookup_app_Some in Ha as [Ha|[Hge Ha]]; [eauto|].
    apply list_lookup_singleton_Some in Ha as [Hj' <-]. apply Hr. lia.
  - apply Forall_app. split; [exact Hok|].
    constructor; [|constructor]. split; intros H; [apply Hco|apply Hcm]; exact H.
  - apply noAdjacent_snoc; [exact Ho|]. intros H. rewrite <- Hpo. now apply Hco.
  - apply noAdjacent_snoc; [exact Hm|]. intros H. rewrite <- Hpm. now apply Hcm.
Qed.

Lemma genLoop_inv (n : nat) (rnd : Rand) :
  GenInv n (genLoop n (mkGenState rnd [] 0 false false)).
Proof.
  induction n as [|n IH].
  - split; simpl; trivial; try (intros j c H; now rewrite lookup_nil in H).
    + intros j c c' H. now rewrite lookup_nil in H.
    + intros j c c' H. now rewrite lookup_nil in H.
  - rewrite genLoop_S. now apply genCell_inv.
Qed.

(** *** The second loop *)

Lemma cleared_refl (c : MapItem) : cleared c c.
Proof. now left. Qed.

Lemma cleared_fields (c c' : MapItem) :
  cleared c c' ->
  Index c' = Index c /\ HasRoad c' = HasRoad c
  /\ HasObstacle c' = HasObstacle c /\ HasTool c' = HasTool c
  /\ (HasMonster c' = true -> HasMonster c = true).
Proof. intros [->| ->]; simpl; repeat split; trivial; discriminate. Qed.

Lemma cleared_trans (a b c : MapItem) : cleared a b -> cleared b c -> cleared a c.
Proof.
  intros [->| ->] [->| ->]; unfold cleared, setHasMonster; simpl; auto.
Qed.

Lemma Forall2_cleared_refl (l : list MapItem) : Forall2 cleared l l.
Proof. apply Forall_Forall2_diag, Forall_forall. intros; apply cleared_refl. Qed.

Lemma Forall2_cleared_trans (l1 l2 l3 : list MapItem) :
  Forall2 cleared l1 l2 -> Forall2 cleared l2 l3 -> Forall2 cleared l1 l3.
Proof.
  intros H12 H23. apply Forall2_same_length_lookup. split.
  - apply Forall2_length in H12, H23. congruence.
  - intros i x z Hx Hz.
    destruct (Forall2_lookup_l _ _ _ _ _ H12 Hx) as (y & Hy & Hxy).
    eapply cleared_trans; [exact Hxy|].
    eapply Forall2_lookup_lr; eauto.
Qed.

(** Roads are the same before and after, so run edges are the same. *)
Lemma isRunEdge_cleared (l l' : list MapItem) (j : nat) :
  Forall2 cleared l l' -> isRunEdge l' j -> isRunEdge l j.
Proof.
  intros H [Hj|[Hj|[(c' & Hc' & Hr)|(c' & Hc' & Hr)]]].
  - now left.
  - right; left. apply Forall2_length in H. congruence.
  - right; right; left.
    destruct (Forall2_lookup_r _ _ _ _ _ H Hc') as (c & Hc & Hcc).
    exists c. split; [exact Hc|].
    apply cleared_fields in Hcc. destruct Hcc as (_ & Hroad & _). congruence.
  - right; right; right.
    destruct (Forall2_lookup_r _ _ _ _ _ H Hc') as (c & Hc & Hcc).
    exists c. split; [exact Hc|].
    apply cleared_fields in Hcc. destruct Hcc as (_ & Hroad & _). congruence.
Qed.

(** One iteration of the second loop never indexes out of range, changes at
    most the monster flag of cell [i], and clears it on a run edge. *)
Lemma clearEdgeMonster_spec (count : Z) (i : nat) (res : list MapItem) :
  count = Z.of_nat (length res) -> (i < length res)%nat ->
  exists res',
    clearEdgeMonster count i res = Some res'
    /\ Forall2 cleared res res'
    /\ (forall c', res' !! i = Some c' -> HasRoad c' = true ->
                   isRunEdge res i -> HasMonster c' = false).
Proof.
  intros Hcount Hi.
  destruct (lookup_lt_is_Some_2 res i Hi) as [item Hitem].
  unfold clearEdgeMonster. rewrite Hitem. simpl.
  assert (Forall2 cleared res (<[i:=setHasMonster false item]> res)) as Hset.
  { rewrite <- (list_insert_id res i item Hitem) at 1.
    apply Forall2_insert; [apply Forall2_cleared_refl|now right]. }
  assert (forall c', <[i:=setHasMonster false item]> res !! i = Some c' ->
                     HasMonster c' = false) as Hcl.
  { intros c'. rewrite list_lookup_insert_eq by exact Hi. now intros [= <-]. }
  destruct (HasRoad item) eqn:Hroad; simpl.
  2: { exists res. split; [reflexivity|]. split; [apply Forall2_cleared_refl|].
       intros c' Hc'. rewrite Hitem in Hc'. injection Hc' as <-. congruence. }
  destruct (Z.of_nat i =? 0) eqn:H0; simpl.
  { destruct (Z.of_nat i =? count - 1) eqn:Hlast; simpl.
    - eexists; split; [reflexivity|]. split; [exact Hset|]. intros; eauto.
    - apply Z.eqb_neq in Hlast.
      destruct (lookup_lt_is_Some_2 res (i + 1)%nat) as [next Hnext]; [lia|].
      rewrite Hnext. simpl.
      eexists; split; [reflexivity|]. split; [exact Hset|]. intros; eauto. }
  apply Z.eqb_neq in H0.
  destruct (lookup_lt_is_Some_2 res (i - 1)%nat) as [prev Hprev]; [lia|].
  rewrite Hprev. simpl.
  destruct (Z.of_nat i =? count - 1) eqn:Hlast; simpl.
  { rewrite orb_true_r.
    eexists; split; [reflexivity|]. split; [exact Hset|]. intros; eauto. }
  apply Z.eqb_neq in Hlast.
  destruct (lookup_lt_is_Some_2 res (i + 1)%nat) as [next Hnext]; [lia|].
  rewrite Hnext. simpl.
  destruct (negb (HasRoad prev) || negb (HasRoad next)) eqn:Hedge.
  { eexists; split; [reflexivity|]. split; [exact Hset|]. intros; eauto. }
  exists res. split; [reflexivity|]. split; [apply Forall2_cleared_refl|].
  intros c' Hc' _ Hrun. exfalso.
  apply orb_false_elim in Hedge as [Hp Hn].
  apply negb_false_iff in Hp, Hn.
  destruct Hrun as [Hj|[Hj|[(c & Hc & Hr)|(c & Hc & Hr)]]].
  - lia.
  - lia.
  - rewrite Hprev in Hc. injection Hc as <-. congruence.
  - replace (S i) with (i + 1)%nat in Hc by lia.
    rewrite Hnext in Hc. injection Hc as <-. congruence.
Qed.

Lemma clearLoop_spec (count : Z) (m k : nat) (res : list MapItem) :
  count = Z.of_nat (length res) -> (k + m = length res)%nat ->
  exists res',
    clearLoop count (seq k m) res = Some res'
    /\ Forall2 cleared res res'
    /\ (forall j c', (k <= j)%nat -> res' !! j = Some c' -> HasRoad c' = true ->
                     isRunEdge res' j -> HasMonster c' = false).
Proof.
  revert k res. induction m as [|m IH]; intros k res Hcount Hlen.
  - exists res. split; [reflexivity|]. split; [apply Forall2_cleared_refl|].
    intros j c' Hk Hj. apply lookup_lt_Some in Hj. lia.
  - simpl.
    destruct (clearEdgeMonster_spec count k res Hcount) as (r1 & Hr1 & H1 & Hk1);
      [lia|].
    rewrite Hr1. simpl.
    pose proof (Forall2_length _ _ _ H1) as Hlen1.
    destruct (IH (S k) r1) as (r2 & Hr2 & H2 & Hk2); [congruence|lia|].
    exists r2. split; [exact Hr2|].
    split; [eapply Forall2_cleared_trans; eauto|].
    intros j c' Hkj Hj Hroad Hedge.
    destruct (decide (j = k)) as [->|Hne]; [|apply (Hk2 j); trivial; lia].
    destruct (Forall2_lookup_r _ _ _ _ _ H2 Hj) as (c1 & Hc1 & Hcc).
    pose proof (cleared_fields _ _ Hcc) as (_ & Hroad' & _ & _ & Hmon).
    destruct (HasMonster c') eqn:Hm; [|reflexivity].
    rewrite (Hk1 c1 Hc1) in Hmon.
    + now specialize (Hmon eq_refl).
    + congruence.
    + eapply isRunEdge_cleared; [exact H1|].
      eapply isRunEdge_cleared; [exact H2|exact Hedge].
Qed.

Lemma noAdjacent_cleared (f : MapItem -> bool) (l l' : list MapItem) :
  (forall c c', cleared c c' -> f c' = true -> f c = true) ->
  Forall2 cleared l l' -> noAdjacent f l -> noAdjacent f l'.
Proof.
  intros Hf H Hl j a' b' Ha' Hb'.
  destruct (Forall2_lookup_r _ _ _ _ _ H Ha') as (a & Ha & Haa).
  destruct (Forall2_lookup_r _ _ _ _ _ H Hb') as (b & Hb & Hbb).
  specialize (Hl j a b Ha Hb).
  destruct (f a') eqn:Efa, (f b') eqn:Efb; trivial.
  rewrite (Hf _ _ Haa Efa), (Hf _ _ Hbb Efb) in Hl. discriminate.
Qed.

(** *** The generator as a whole *)

(** [GenMap] never indexes out of range, returns [count] cells (none for a
    non-positive [count]), and the level has the properties below. *)
Lemma GenMap_spec (count : Z) (rnd : Rand) :
  exists l,
    GenMap count rnd = Some l
    /\ length l = Z.to_nat count
    /\ (forall j c, l !! j = Some c -> Index c = Z.of_nat j)
    /\ (forall j c, l !! j = Some c -> (j < 10)%nat -> HasRoad c = true)
    /\ Forall cellOk l
    /\ noAdjacent HasObstacle l
    /\ noAdjacent HasMonster l
    /\ (forall j c, l !! j = Some c -> HasRoad c = true -> isRunEdge l j ->
                    HasMonster c = false).
Proof.
  unfold GenMap. destruct (count <=? 0) eqn:Hc.
  - apply Z.leb_le in Hc. exists []. split; [reflexivity|].
    split; [simpl; lia|].
    repeat split; try (intros j c H; now rewrite lookup_nil in H).
    + constructor.
    + intros j c c' H. now rewrite lookup_nil in H.
    + intros j c c' H. now rewrite lookup_nil in H.
  - apply Z.leb_gt in Hc. cbv zeta.
    set (st := genLoop (Z.to_nat count) (mkGenState rnd [] 0 false false)).
    destruct (genLoop_inv (Z.to_nat count) rnd)
      as [Hlen Hidx H10 Hok Ho Hm _ _]. fold st in Hlen, Hidx, H10, Hok, Ho, Hm.
    destruct (clearLoop_spec count (Z.to_nat count) 0 (result st))
      as (l & Hl & Hcl & Hedge); [lia|lia|].
    exists l. split; [exact Hl|].
    pose proof (Forall2_length _ _ _ Hcl) as Hlen'.
    split; [congruence|].
    split; [|split; [|split; [|split; [|split]]]].
    + intros j c' Hj.
      destruct (Forall2_lookup_r _ _ _ _ _ Hcl Hj) as (c & Hcj & Hcc).
      apply cleared_fields in Hcc as (-> & _). eauto.
    + intros j c' Hj Hlt.
      destruct (Forall2_lookup_r _ _ _ _ _ Hcl Hj) as (c & Hcj & Hcc).
      apply cleared_fields in Hcc as (_ & -> & _). eauto.
    + apply Forall_lookup. intros j c' Hj.
      destruct (Forall2_lookup_r _ _ _ _ _ Hcl Hj) as (c & Hcj & Hcc).
      apply cleared_fields in Hcc as (_ & Hr & Hob & _ & Hmo).
      pose proof (proj1 (Forall_lookup _ _) Hok j c Hcj) as [Hc1 Hc2].
      split; intros H; rewrite Hr; [apply Hc1; congruence|apply Hc2; auto].
    + eapply noAdjacent_cleared; [|exact Hcl|exact Ho].
      intros c c' Hcc. apply cleared_fields in Hcc as (_ & _ & -> & _). auto.
    + eapply noAdjacent_cleared; [|exact Hcl|exact Hm].
      intros c c' Hcc. apply cleared_fields in Hcc as (_ & _ & _ & _ & H). auto.
    + intros j c Hj. apply Hedge. lia. exact Hj.
Qed.




(** C7: in every generated level no two consecutive cells both have an
    obstacle, and no two consecutive cells both have a monster. *)
Theorem C7_no_adjacent_hazards (count : Z) (rnd : Rand) :
  exists l,
    GenMap count rnd = Some l
    /\ length l = Z.to_nat count
    /\ forall j c c', l !! j = Some c -> l !! S j = Some c' ->
         ~ (HasObstacle c = true /\ HasObstacle c' = true)
         /\ ~ (HasMonster c = true /\ HasMonster c' = true).
Proof.
  destruct (GenMap_spec count rnd) as (l & Hl & Hlen & _ & _ & _ & Ho & Hm & _).
  exists l. split; [exact Hl|]. split; [exact Hlen|].
  intros j c c' Hc Hc'.
  specialize (Ho j c c' Hc Hc'). specialize (Hm j c c' Hc Hc').
  split; intros [H1 H2]; [rewrite H1, H2 in Ho|rewrite H1, H2 in Hm];
    discriminate.
Qed.

Lemma C7_no_adjacent_hazards_witness :
  exists l,
    GenMap 12 (constStream (0 # 1)) = Some l
    /\ length l = 12%nat
    /\ forall j c c', l !! j = Some c -> l !! S j = Some c' ->
         ~ (HasObstacle c = true /\ HasObstacle c' = true)
         /\ ~ (HasMonster c = true /\ HasMonster c' = true).
Proof. exact (C7_no_adjacent_hazards 12 (constStream (0 # 1))). Defined.

(** C8: in every generated level a ground cell that is the first or the
    last cell of the level, or whose neighbour on either side has no
    ground, has its monster flag cleared; hence a cell with a monster has
    ground, is neither the first nor the last cell, and both its
    neighbours have ground. *)
Theorem C8_no_monster_on_run_edge (count : Z) (rnd : Rand) :
  exists l,
    GenMap count rnd = Some l
    /\ (forall j c, l !! j = Some c -> HasRoad c = true -> isRunEdge l j ->
                    HasMonster c = false)
    /\ (forall j c, l !! j = Some c -> HasMonster c = true ->
          HasRoad c = true /\ j <> 0%nat /\ S j <> length l
          /\ (exists p, l !! (j - 1)%nat = Some p /\ HasRoad p = true)
          /\ (exists n, l !! S j = Some n /\ HasRoad n = true)).
Proof.
  destruct (GenMap_spec count rnd) as (l & Hl & _ & _ & _ & Hok & _ & _ & He).
  exists l. split; [exact Hl|]. split; [exact He|].
  intros j c Hj Hm.
  pose proof (proj1 (Forall_lookup _ _) Hok j c Hj) as [_ Hroad].
  specialize (Hroad Hm).
  assert (~ isRunEdge l j) as Hne.
  { intros Hedge. rewrite (He j c Hj Hroad Hedge) in Hm. discriminate. }
  pose proof (lookup_lt_Some _ _ _ Hj) as Hlt.
  split; [exact Hroad|].
  split; [intros ->; apply Hne; now left|].
  split; [intros H; apply Hne; right; now left|].
  assert (S j <> length l) as Hlast by (intros H; apply Hne; right; now left).
  assert (j <> 0%nat) as H0 by (intros ->; apply Hne; now left).
  split.
  - destruct (lookup_lt_is_Some_2 l (j - 1)%nat) as [p Hp]; [lia|].
    exists p. split; [exact Hp|].
    destruct (HasRoad p) eqn:Hr; [reflexivity|].
    exfalso. apply Hne. right; right; left. eauto.
  - destruct (lookup_lt_is_Some_2 l (S j)) as [n Hn]; [lia|].
    exists n. split; [exact Hn|].
    destruct (HasRoad n) eqn:Hr; [reflexivity|].
    exfalso. apply Hne. right; right; right. eauto.
Qed.

Lemma C8_no_monster_on_run_edge_witness :
  exists l,
    GenMap 12 (constStream (1 # 25)) = Some l
    /\ (forall j c, l !! j = Some c -> HasRoad c = true -> isRunEdge l j ->
                    HasMonster c = false)
    /\ (forall j c, l !! j = Some c -> HasMonster c = true ->
          HasRoad c = true /\ j <> 0%nat /\ S j <> length l
          /\ (exists p, l !! (j - 1)%nat = Some p /\ HasRoad p = true)
          /\ (exists n, l !! S j = Some n /\ HasRoad n = true)).
Proof. exact (C8_no_monster_on_run_edge 12 (constStream (1 # 25))). Defined.

(** C9: a generated level of length at least 10 has ground on each of its
    cells 0 to 9, whatever the random stream; a level of any positive
    length has ground on cell 0. *)
Theorem C9_spawn_run_has_ground (count : Z) (rnd : Rand) :
  exists l,
    GenMap count rnd = Some l
    /\ length l = Z.to_nat count
    /\ (10 <= count -> forall j, (j < 10)%nat ->
          exists c, l !! j = Some c /\ HasRoad c = true)
    /\ (0 < count -> exists c, l !! 0%nat = Some c /\ HasRoad c = true).
Proof.
  destruct (GenMap_spec count rnd) as (l & Hl & Hlen & _ & H10 & _).
  exists l. split; [exact Hl|]. split; [exact Hlen|]. split.
  - intros Hc j Hj.
    destruct (lookup_lt_is_Some_2 l j) as [c Hcj]; [lia|]. eauto.
  - intros Hc.
    destruct (lookup_lt_is_Some_2 l 0%nat) as [c Hcj]; [lia|].
    exists c. split; [exact Hcj|]. apply (H10 0%nat c Hcj). lia.
Qed.

Lemma C9_spawn_run_has_ground_witness :
  exists l,
    GenMap 12 (constStream (9 # 10)) = Some l
    /\ length l = 12%nat
    /\ (forall j, (j < 10)%nat -> exists c, l !! j = Some c /\ HasRoad c = true)
    /\ (exists c, l !! 0%nat = Some c /\ HasRoad c = true).
Proof.
  destruct (C9_spawn_run_has_ground 12 (constStream (9 # 10)))
    as (l & Hl & Hlen & H10 & H0).
  exists l. split; [exact Hl|]. split; [exact Hlen|].
  split; [apply H10; lia|apply H0; lia].
Defined.

(** ** Collision primitive *)

Lemma CheckCollision_true {A B} `{CollisionBox A} `{CollisionBox B} (a : A) (b : B) :
  CheckCollision a b = true <->
  (left (GetCollisionBox a) < right (GetCollisionBox b)
   /\ left (GetCollisionBox b) < right (GetCollisionBox a)
   /\ top (GetCollisionBox a) < bottom (GetCollisionBox b)
   /\ top (GetCollisionBox b) < bottom (GetCollisionBox a))%Q.
Proof.
  unfold CheckCollision.
  destruct (GetCollisionBox a) as [aL aR aT aB].
  destruct (GetCollisionBox b) as [bL bR bT bB]. simpl.
  rewrite !andb_true_iff, !Qltb_lt. tauto.
Qed.

(** C2: [CheckCollision] is true exactly when the four strict inequalities
    hold; boxes that only touch (equality on an edge of either axis) do not
    collide; boxes whose overlap is strictly positive on both axes do.  The
    test is a function of the two boxes alone. *)
Theorem C2_CheckCollision_strict_overlap
    {A B} `{CollisionBox A} `{CollisionBox B} (a : A) (b : B) :
  let boxa := GetCollisionBox a in
  let boxb := GetCollisionBox b in
  (CheckCollision a b = true <->
     (left boxa < right boxb /\ right boxa > left boxb
      /\ top boxa < bottom boxb /\ bottom boxa > top boxb)%Q)
  /\ ((right boxa == left boxb \/ left boxa == right boxb
       \/ bottom boxa == top boxb \/ top boxa == bottom boxb)%Q ->
      CheckCollision a b = false)
  /\ ((0 < Qmin (right boxa) (right boxb) - Qmax (left boxa) (left boxb))%Q ->
      (0 < Qmin (bottom boxa) (bottom boxb) - Qmax (top boxa) (top boxb))%Q ->
      CheckCollision a b = true).
Proof.
  intros boxa boxb.
  pose proof (CheckCollision_true a b) as Hiff. fold boxa boxb in Hiff.
  split; [|split].
  - rewrite Hiff. unfold Qgt. tauto.
  - intros Htouch. apply not_true_is_false. rewrite Hiff.
    intros (H1 & H2 & H3 & H4).
    destruct Htouch as [E|[E|[E|E]]];
      [rewrite E in H2|rewrite E in H1|rewrite E in H4|rewrite E in H3];
      eapply Qlt_irrefl; eassumption.
  - intros Hx Hy. apply Hiff.
    apply (proj2 (Qlt_minus_iff _ _)) in Hx, Hy.
    apply Q.max_lub_lt_iff in Hx as [Hx1 Hx2].
    apply Q.max_lub_lt_iff in Hy as [Hy1 Hy2].
    apply Q.min_glb_lt_iff in Hx1 as [_ Hx1], Hx2 as [Hx2 _].
    apply Q.min_glb_lt_iff in Hy1 as [_ Hy1], Hy2 as [Hy2 _].
    tauto.
Qed.

Lemma C2_CheckCollision_strict_overlap_witness :
  CheckCollision boxA boxB = true
  /\ CheckCollision boxA boxC = false
  /\ CheckCollision boxA boxD = false.
Proof.
  split; [|split].
  - apply (C2_CheckCollision_strict_overlap boxA boxB); reflexivity.
  - apply (C2_CheckCollision_strict_overlap boxA boxC). left. reflexivity.
  - apply (C2_CheckCollision_strict_overlap boxA boxD).
    right; right; left. reflexivity.
Defined.

(** ** Player: the dead branch *)

Lemma AnimationController_Update_state (ac : AnimationController) :
  currentState (AnimationController_Update ac) = currentState ac
  /\ animations (AnimationController_Update ac) = animations ac.
Proof.
  unfold AnimationController_Update.
  destruct (animations ac (currentState ac)); simpl; auto.
Qed.

(** C10: when the dead flag is set at the start of a tick, [Player.Update]
    only advances the animation: every field but the animation controller
    is unchanged, in the controller the state and the clips are unchanged
    (only the frame cursor moves), and the result does not depend on the
    keyboard, the obstacles, the level width or the camera. *)
Theorem C10_dead_player_only_animates
    (obstacles : list Obstacle) (mapWidth cameraX : Q) (keys : Keyboard)
    (p : Player) :
  IsDead p = true ->
  let p' := Player_Update obstacles mapWidth cameraX keys p in
  p' = setAnimation (AnimationController_Update (Player_Animation p)) p
  /\ (X p' = X p /\ Y p' = Y p /\ VelocityY p' = VelocityY p
      /\ IsOnGround p' = IsOnGround p /\ wasSpaceDown p' = wasSpaceDown p
      /\ wasOnGround p' = wasOnGround p /\ FacingLeft p' = FacingLeft p
      /\ jumpSound p' = jumpSound p /\ dieSound p' = dieSound p
      /\ IsDead p' = true /\ hasPlayedDieSound p' = hasPlayedDieSound p
      /\ IsFlying p' = IsFlying p /\ flyFrameCount p' = flyFrameCount p)
  /\ currentState (Player_Animation p') = currentState (Player_Animation p)
  /\ animations (Player_Animation p') = animations (Player_Animation p)
  /\ forall obstacles' mapWidth' cameraX' keys',
       Player_Update obstacles' mapWidth' cameraX' keys' p = p'.
Proof.
  intros Hdead p'.
  assert (forall o m c k, Player_Update o m c k p =
            setAnimation (AnimationController_Update (Player_Animation p)) p)
    as Heq.
  { intros. unfold Player_Update. rewrite Hdead. simpl. now rewrite Hdead. }
  subst p'. rewrite !Heq. simpl.
  destruct (AnimationController_Update_state (Player_Animation p)) as [Hs Ha].
  repeat split; auto.
Qed.

Lemma C10_dead_player_only_animates_witness :
  Player_Update [groundTile] levelWidth 0 spaceHeld deadPlayer =
  setAnimation (AnimationController_Update (Player_Animation deadPlayer))
    deadPlayer.
Proof.
  exact (proj1 (C10_dead_player_only_animates [groundTile] levelWidth 0
                  spaceHeld deadPlayer eq_refl)).
Defined.

(** ** Player: field preservation *)

Ltac split_ifs :=
  repeat match goal with
         | |- context [if ?b then _ else _] => destruct b eqn:?
         | |- context [match ?x with Some _ => _ | None => _ end] =>
             destruct x eqn:?
         end.

Lemma handleDeath_fields (p : Player) :
  let p' := handleDeath p in
  IsDead p' = true
  /\ X p' = X p /\ Y p' = Y p /\ VelocityY p' = VelocityY p
  /\ IsOnGround p' = IsOnGround p /\ wasSpaceDown p' = wasSpaceDown p
  /\ wasOnGround p' = wasOnGround p /\ jumpSound p' = jumpSound p
  /\ IsFlying p' = IsFlying p /\ flyFrameCount p' = flyFrameCount p.
Proof.
  unfold handleDeath. destruct (IsDead p) eqn:Hd; simpl;
    destruct (dieSound p); simpl; destruct (hasPlayedDieSound p); simpl;
    repeat split; auto.
Qed.

Lemma checkDeath_alive (cameraX : Q) (p : Player) :
  IsDead (checkDeath cameraX p) = false -> checkDeath cameraX p = p.
Proof.
  unfold checkDeath. destruct (GetCollisionBox p) as [l r t b].
  match goal with |- context [if ?c then _ else _] => destruct c end;
    [|reflexivity].
  intros H. pose proof (handleDeath_fields p) as [Hd _]. simpl in Hd. congruence.
Qed.

Lemma updateAnimationState_fields (isMoving : bool) (p : Player) :
  let p' := updateAnimationState isMoving p in
  X p' = X p /\ Y p' = Y p /\ VelocityY p' = VelocityY p
  /\ IsOnGround p' = IsOnGround p /\ wasSpaceDown p' = wasSpaceDown p
  /\ jumpSound p' = jumpSound p /\ dieSound p' = dieSound p
  /\ IsDead p' = IsDead p /\ hasPlayedDieSound p' = hasPlayedDieSound p
  /\ IsFlying p' = IsFlying p /\ flyFrameCount p' = flyFrameCount p
  /\ FacingLeft p' = FacingLeft p.
Proof.
  unfold updateAnimationState.
  destruct (IsDead p) eqn:Hd; [simpl; repeat split; auto|].
  destruct (IsFlying p) eqn:Hf.
  { destruct (bool_decide _); simpl; repeat split; auto. }
  destruct (GetState (Player_Animation p));
    destruct (wasOnGround p) eqn:Hw, (IsOnGround p) eqn:Hg; simpl;
    split_ifs; simpl in *; repeat split; congruence.
Qed.

Lemma moveHorizontal_fields (keys : Keyboard) (obstacles : list Obstacle)
    (mapWidth : Q) (p : Player) :
  let p' := fst (moveHorizontal keys obstacles mapWidth p) in
  Y p' = Y p /\ VelocityY p' = VelocityY p
  /\ IsOnGround p' = IsOnGround p /\ wasSpaceDown p' = wasSpaceDown p
  /\ wasOnGround p' = wasOnGround p /\ jumpSound p' = jumpSound p
  /\ dieSound p' = dieSound p /\ IsDead p' = IsDead p
  /\ IsFlying p' = IsFlying p /\ flyFrameCount p' = flyFrameCount p
  /\ Player_Animation p' = Player_Animation p.
Proof.
  unfold moveHorizontal.
  destruct (keys KeyArrowLeft || keys KeyA), (keys KeyArrowRight || keys KeyD);
    split_ifs; simpl; repeat split; auto.
Qed.

(** With an upward velocity the collision pass lands on nothing: it can
    only kill the player at a monster. *)
Lemma collisionLoop_rising (obstacles : list Obstacle) (p : Player) :
  Qleb 0 (VelocityY p) = false ->
  let p' := collisionLoop obstacles p in
  X p' = X p /\ Y p' = Y p /\ VelocityY p' = VelocityY p
  /\ IsOnGround p' = IsOnGround p /\ wasSpaceDown p' = wasSpaceDown p
  /\ jumpSound p' = jumpSound p.
Proof.
  intros Hv. induction obstacles as [|o rest IH]; simpl.
  - repeat split; auto.
  - destruct (CheckCollision p o); simpl; [|exact IH].
    destruct (Obstacle_Type o); rewrite ?Hv; simpl; try exact IH.
    pose proof (handleDeath_fields p) as H. simpl in H. tauto.
Qed.

(** The collision pass touches neither the horizontal position nor the
    input latch. *)
Lemma collisionLoop_fields (obstacles : list Obstacle) (p : Player) :
  let p' := collisionLoop obstacles p in
  X p' = X p /\ wasSpaceDown p' = wasSpaceDown p
  /\ jumpSound p' = jumpSound p /\ IsFlying p' = IsFlying p
  /\ flyFrameCount p' = flyFrameCount p.
Proof.
  revert p. induction obstacles as [|o rest IH]; intros p; simpl.
  - repeat split; auto.
  - destruct (CheckCollision p o); simpl; [|apply IH].
    pose proof (handleDeath_fields p) as Hh. simpl in Hh.
    destruct (Obstacle_Type o); try apply IH; try tauto;
      (destruct (Qleb 0 (VelocityY p) && Qltb _ (Y p)); [|apply IH]);
      specialize (IH (land (top (GetCollisionBox o)) p)); simpl in IH;
      exact IH.
Qed.

Lemma finishTick_wasSpaceDown (isMoving : bool) (obstacles : list Obstacle)
    (p : Player) :
  wasSpaceDown (finishTick isMoving obstacles p) = wasSpaceDown p.
Proof.
  unfold finishTick. cbv zeta. simpl.
  pose proof (updateAnimationState_fields isMoving
                (checkCollisionWithObstacles obstacles (applyGravity p))) as Ha.
  cbv zeta in Ha. destruct Ha as (_ & _ & _ & _ & -> & _).
  pose proof (collisionLoop_fields obstacles
                (setIsOnGround false (applyGravity p))) as Hc.
  cbv zeta in Hc. destruct Hc as (_ & Hc & _). exact Hc.
Qed.

(** ** Player: the jump trigger *)

(** The tick of a player that is alive, stays on screen and is not flying. *)
Lemma Player_Update_walking (obstacles : list Obstacle) (mapWidth cameraX : Q)
    (keys : Keyboard) (p : Player) :
  IsDead p = false -> IsDead (checkDeath cameraX p) = false ->
  IsFlying p = false ->
  Player_Update obstacles mapWidth cameraX keys p =
  finishTick (snd (moveHorizontal keys obstacles mapWidth p)) obstacles
    (jumpTrigger (keys KeySpace) (fst (moveHorizontal keys obstacles mapWidth p))).
Proof.
  intros Hd Hc Hf. unfold Player_Update. rewrite Hd. simpl.
  rewrite (checkDeath_alive _ _ Hc), Hd, Hf.
  now destruct (moveHorizontal keys obstacles mapWidth p).
Qed.

Lemma finishTick_rising (isMoving : bool) (obstacles : list Obstacle) (p : Player) :
  Qleb 0 (VelocityY p + gravity) = false ->
  let p' := finishTick isMoving obstacles p in
  VelocityY p' = (VelocityY p + gravity)%Q
  /\ Y p' = (Y p + (VelocityY p + gravity))%Q
  /\ IsOnGround p' = false /\ wasSpaceDown p' = wasSpaceDown p.
Proof.
  intros Hv. unfold finishTick. cbv zeta.
  set (g := applyGravity p).
  set (c := checkCollisionWithObstacles obstacles g).
  pose proof (updateAnimationState_fields isMoving c) as Ha. cbv zeta in Ha.
  destruct Ha as (_ & HaY & HaV & HaG & HaS & _).
  simpl. rewrite HaY, HaV, HaG, HaS.
  pose proof (collisionLoop_rising obstacles (setIsOnGround false g)) as Hc.
  simpl in Hc. specialize (Hc Hv). fold (checkCollisionWithObstacles obstacles g) in Hc.
  fold c in Hc. destruct Hc as (_ & HcY & HcV & HcG & HcS & _).
  rewrite HcY, HcV, HcG, HcS. repeat split.
Qed.

Lemma jumpTrigger_fields (spacePressed : bool) (p : Player) :
  let p' := jumpTrigger spacePressed p in
  X p' = X p /\ Y p' = Y p /\ wasSpaceDown p' = spacePressed
  /\ IsDead p' = IsDead p /\ IsFlying p' = IsFlying p.
Proof.
  unfold jumpTrigger. split_ifs; simpl; repeat split; auto.
Qed.

Lemma finishTick_IsFlying (isMoving : bool) (obstacles : list Obstacle)
    (p : Player) :
  IsFlying (finishTick isMoving obstacles p) = IsFlying p.
Proof.
  unfold finishTick. cbv zeta. simpl.
  pose proof (updateAnimationState_fields isMoving
                (checkCollisionWithObstacles obstacles (applyGravity p))) as Ha.
  cbv zeta in Ha. destruct Ha as (_ & _ & _ & _ & _ & _ & _ & _ & _ & -> & _).
  pose proof (collisionLoop_fields obstacles
                (setIsOnGround false (applyGravity p))) as Hc.
  cbv zeta in Hc. destruct Hc as (_ & _ & _ & Hc & _). exact Hc.
Qed.

(** One tick of a player that is alive, on screen and not flying, in terms
    of the latch [wasSpaceDown]: a grounded player with the key down and
    the latch clear jumps; otherwise the trigger only writes the latch.
    The tick leaves the key in the latch. *)
Lemma walking_tick_jump
    (obstacles : list Obstacle) (mapWidth cameraX : Q) (keys : Keyboard)
    (p : Player) :
  IsDead p = false -> IsDead (checkDeath cameraX p) = false ->
  IsFlying p = false ->
  let moved := moveHorizontal keys obstacles mapWidth p in
  let jumped := jumpTrigger (keys KeySpace) (fst moved) in
  let p' := Player_Update obstacles mapWidth cameraX keys p in
  p' = finishTick (snd moved) obstacles jumped
  /\ (IsOnGround p = true -> keys KeySpace = true -> wasSpaceDown p = false ->
      VelocityY jumped = jumpSpeed /\ IsOnGround jumped = false
      /\ jumpSound jumped = RewindAndPlay <$> jumpSound p
      /\ VelocityY p' = (jumpSpeed + gravity)%Q /\ IsOnGround p' = false
      /\ Y p' = (Y p + (jumpSpeed + gravity))%Q)
  /\ (wasSpaceDown p = true \/ keys KeySpace = false \/ IsOnGround p = false ->
      jumped = setWasSpaceDown (keys KeySpace) (fst moved)
      /\ VelocityY jumped = VelocityY p /\ IsOnGround jumped = IsOnGround p
      /\ jumpSound jumped = jumpSound p)
  /\ wasSpaceDown p' = keys KeySpace /\ IsFlying p' = false.
Proof.
  intros Hd Hc Hf moved jumped p'.
  pose proof (moveHorizontal_fields keys obstacles mapWidth p) as Hm.
  cbv zeta in Hm. fold moved in Hm.
  destruct Hm as (HmY & HmV & HmG & HmS & _ & HmJ & _ & _ & HmF & _).
  assert (p' = finishTick (snd moved) obstacles jumped) as Hp'.
  { subst p' jumped moved. now apply Player_Update_walking. }
  pose proof (jumpTrigger_fields (keys KeySpace) (fst moved)) as Hj.
  cbv zeta in Hj. fold jumped in Hj. destruct Hj as (_ & _ & HjS & _ & HjF).
  split; [exact Hp'|]. split; [|split; [|split]].
  - intros Hg Hk Hs.
    assert (VelocityY jumped = jumpSpeed /\ IsOnGround jumped = false
            /\ jumpSound jumped = RewindAndPlay <$> jumpSound p
            /\ Y jumped = Y p) as (HV & HG & HJ & HY).
    { subst jumped. unfold jumpTrigger. rewrite HmG, HmS, Hg, Hk, Hs. simpl.
      rewrite <- HmJ, <- HmY. destruct (jumpSound (fst moved)) eqn:E; simpl; auto. }
    split; [exact HV|]. split; [exact HG|]. split; [exact HJ|].
    pose proof (finishTick_rising (snd moved) obstacles jumped) as Hfin.
    rewrite HV in Hfin. specialize (Hfin eq_refl). cbv zeta in Hfin.
    rewrite <- Hp' in Hfin. destruct Hfin as (H1 & H2 & H3 & _).
    rewrite HY in H2. auto.
  - intros Hno.
    assert (IsOnGround (fst moved) && keys KeySpace
            && negb (wasSpaceDown (fst moved)) = false) as Hcond.
    { rewrite HmG, HmS.
      destruct Hno as [->|[->| ->]]; simpl;
        rewrite ?andb_false_r; reflexivity. }
    subst jumped. unfold jumpTrigger. rewrite Hcond. simpl. auto.
  - rewrite Hp', finishTick_wasSpaceDown. exact HjS.
  - rewrite Hp', finishTick_IsFlying, HjF, HmF. exact Hf.
Qed.

(** A flight can start with the grounded flag set: the player of
    [gameWalkerAtPickup] walks on a block with its head in a pickup; the
    tick lands it on the block and the pickup makes it fly, grounded flag
    and latch as they were. *)
Example flight_entered_on_the_ground :
  exists g p,
    Game_Update noKeys gameWalkerAtPickup = Some g
    /\ Game_Player g = Some p
    /\ IsFlying p = true /\ IsOnGround p = true /\ wasSpaceDown p = false
    /\ IsDead p = false.
Proof. eexists. eexists. vm_compute. repeat split. Qed.




(** ** Player: landing *)

Lemma CheckCollision_bottom_below_top (p : Player) (o : Obstacle) :
  CheckCollision p o = true -> Qltb (top (GetCollisionBox o)) (Y p) = true.
Proof.
  intros H. apply CheckCollision_true in H as (_ & _ & _ & H).
  apply Qltb_lt. exact H.
Qed.

(** Entities that do not overlap the player, and pickups, are passed over. *)
Lemma collisionLoop_skip (pre rest : list Obstacle) (p : Player) :
  (forall e, In e pre ->
     CheckCollision p e = false \/ Obstacle_Type e = ObstacleTypeTool) ->
  collisionLoop (pre ++ rest) p = collisionLoop rest p.
Proof.
  induction pre as [|e pre IH]; intros Hpre; simpl; [reflexivity|].
  assert (collisionLoop (pre ++ rest) p = collisionLoop rest p) as IH'.
  { apply IH. intros e' He'. apply Hpre. now right. }
  destruct (Hpre e (or_introl eq_refl)) as [Hc|Ht].
  - now rewrite Hc.
  - rewrite Ht. now destruct (CheckCollision p e).
Qed.

(** Once landed, the player stays landed for the rest of the pass; its
    height is the top edge of the last entity it landed on. *)
Lemma collisionLoop_landed (post : list Obstacle) (q : Player) :
  VelocityY q = 0%Q -> IsOnGround q = true ->
  let p' := collisionLoop post q in
  VelocityY p' = 0%Q /\ IsOnGround p' = true
  /\ (Y p' = Y q
      \/ exists e, In e post /\ solid e = true /\ Y p' = top (GetCollisionBox e))
  /\ ((forall e, In e post -> solid e = true -> CheckCollision q e = false) ->
      Y p' = Y q).
Proof.
  revert q. induction post as [|e post IH]; intros q Hv Hg;
    cbn [collisionLoop].
  - repeat split; auto.
  - assert (let p' := collisionLoop post q in
            VelocityY p' = 0%Q /\ IsOnGround p' = true
            /\ (Y p' = Y q
                \/ exists e0, (e = e0 \/ In e0 post) /\ solid e0 = true
                              /\ Y p' = top (GetCollisionBox e0))
            /\ ((forall e0, e = e0 \/ In e0 post -> solid e0 = true ->
                            CheckCollision q e0 = false) -> Y p' = Y q))
      as Hsame.
    { destruct (IH q Hv Hg) as (H1 & H2 & H3 & H4).
      split; [exact H1|]. split; [exact H2|]. split.
      - destruct H3 as [H3|(e0 & Hin & Hs & Hy)]; [now left|].
        right. exists e0. auto.
      - intros Hall. apply H4. intros e0 Hin. apply Hall. now right. }
    destruct (CheckCollision q e) eqn:Hc; cbn [negb]; [|exact Hsame].
    pose proof (CheckCollision_bottom_below_top q e Hc) as Htop.
    assert (let p' := collisionLoop post (land (top (GetCollisionBox e)) q) in
            solid e = true ->
            VelocityY p' = 0%Q /\ IsOnGround p' = true
            /\ (Y p' = Y q
                \/ exists e0, (e = e0 \/ In e0 post) /\ solid e0 = true
                              /\ Y p' = top (GetCollisionBox e0))
            /\ ((forall e0, e = e0 \/ In e0 post -> solid e0 = true ->
                            CheckCollision q e0 = false) -> Y p' = Y q))
      as Hland.
    { intros p' Hs.
      destruct (IH (land (top (GetCollisionBox e)) q) eq_refl eq_refl)
        as (H1 & H2 & H3 & _).
      split; [exact H1|]. split; [exact H2|]. split.
      - right. destruct H3 as [H3|(e0 & Hin & Hs0 & Hy)].
        + exists e. auto.
        + exists e0. auto.
      - intros Hall. rewrite (Hall e (or_introl eq_refl) Hs) in Hc.
        discriminate. }
    destruct (Obstacle_Type e) eqn:Ht.
    + rewrite Hv, Htop. apply Hland. unfold solid. now rewrite Ht.
    + rewrite Hv, Htop. apply Hland. unfold solid. now rewrite Ht.
    + pose proof (handleDeath_fields q) as Hh. cbv zeta in Hh.
      destruct Hh as (_ & _ & HY & HV & HG & _).
      rewrite HY, HV, HG. repeat split; auto.
    + exact Hsame.
Qed.

(** The collision pass of a player whose vertical velocity is at least 0,
    at a ground or obstacle entity [o] that overlaps it, every entity
    before [o] being a pickup or not overlapping the player. *)
Lemma checkCollision_landing
    (p : Player) (pre post : list Obstacle) (o : Obstacle) :
  Qleb 0 (VelocityY p) = true ->
  (forall e, In e pre ->
     CheckCollision p e = false \/ Obstacle_Type e = ObstacleTypeTool) ->
  solid o = true -> CheckCollision p o = true ->
  let obstacleTop := top (GetCollisionBox o) in
  let landed := land obstacleTop (setIsOnGround false p) in
  let p' := checkCollisionWithObstacles (pre ++ o :: post) p in
  Qltb obstacleTop (Y p) = true
  /\ p' = collisionLoop post landed
  /\ VelocityY p' = 0%Q /\ IsOnGround p' = true
  /\ (exists e, In e (o :: post) /\ solid e = true
                /\ Y p' = top (GetCollisionBox e))
  /\ ((forall e, In e post -> solid e = true -> CheckCollision landed e = false) ->
      Y p' = obstacleTop).
Proof.
  intros Hv Hpre Hs Hc obstacleTop landed p'.
  pose proof (CheckCollision_bottom_below_top p o Hc) as Htop.
  fold obstacleTop in Htop.
  assert (p' = collisionLoop post landed) as Hp'.
  { subst p'. unfold checkCollisionWithObstacles.
    rewrite collisionLoop_skip by exact Hpre.
    cbn [collisionLoop].
    change (CheckCollision (setIsOnGround false p) o) with (CheckCollision p o).
    rewrite Hc. cbn [negb].
    change (VelocityY (setIsOnGround false p)) with (VelocityY p).
    change (Y (setIsOnGround false p)) with (Y p).
    fold obstacleTop. rewrite Hv, Htop. cbn [andb].
    unfold solid in Hs. destruct (Obstacle_Type o); try discriminate; reflexivity. }
  destruct (collisionLoop_landed post landed eq_refl eq_refl)
    as (H1 & H2 & H3 & H4).
  rewrite <- Hp' in H1, H2, H3, H4.
  split; [exact Htop|]. split; [exact Hp'|].
  split; [exact H1|]. split; [exact H2|]. split; [|exact H4].
  destruct H3 as [H3|(e & Hin & Hse & Hy)].
  - exists o. split; [now left|]. split; [exact Hs|exact H3].
  - exists e. split; [now right|]. split; [exact Hse|exact Hy].
Qed.

(** A bottom edge that gravity takes from the top edge of an entity, or
    from above it, to below it belongs to a player whose velocity is then
    positive. *)
Lemma crossing_is_falling (p : Player) (obstacleTop : Q) :
  Qleb (Y p) obstacleTop = true ->
  Qltb obstacleTop (Y (applyGravity p)) = true ->
  Qleb 0 (VelocityY (applyGravity p)) = true.
Proof.
  intros Hbefore Hafter. apply Qleb_le in Hbefore. apply Qltb_lt in Hafter.
  apply Qleb_le. unfold applyGravity in *. simpl in *. lra.
Qed.




(** ** Player: flying *)

Lemma SetState_state (s : AnimationState) (ac : AnimationController) :
  currentState (SetState s ac) = s.
Proof.
  unfold SetState. destruct (bool_decide (currentState ac <> s)) eqn:E; simpl.
  - reflexivity.
  - apply bool_decide_eq_false in E.
    destruct (decide (currentState ac = s)); [assumption|contradiction].
Qed.

Lemma wrap64_small (z : Z) : (0 <= z <= 300)%Z -> wrap64 z = z.
Proof.
  intros H. unfold wrap64.
  change (2 ^ 63)%Z with 9223372036854775808%Z.
  change (2 ^ 64)%Z with 18446744073709551616%Z.
  rewrite Z.mod_small by lia. lia.
Qed.

Lemma Player_Update_flying (obstacles : list Obstacle) (mapWidth cameraX : Q)
    (keys : Keyboard) (p : Player) :
  IsDead p = false -> IsDead (checkDeath cameraX p) = false ->
  IsFlying p = true ->
  Player_Update obstacles mapWidth cameraX keys p = flyingTick mapWidth p.
Proof.
  intros Hd Hc Hf. unfold Player_Update. rewrite Hd. simpl.
  now rewrite (checkDeath_alive _ _ Hc), Hd, Hf.
Qed.

(** A tick of flight before the counter reaches the duration. *)
Lemma flyingTick_going (mapWidth : Q) (p : Player) :
  IsDead p = false -> IsFlying p = true ->
  (0 <= flyFrameCount p)%Z -> (flyFrameCount p + 1 < flyDurationFrames)%Z ->
  let p' := flyingTick mapWidth p in
  IsFlying p' = true /\ flyFrameCount p' = (flyFrameCount p + 1)%Z
  /\ X p' = (if Qleb (X p + flySpeed) (mapWidth - playerCollisionWidth / 2)
             then X p + flySpeed else X p)%Q
  /\ currentState (Player_Animation p') = StateFly
  /\ Y p' = Y p /\ VelocityY p' = VelocityY p /\ IsDead p' = false
  /\ IsOnGround p' = IsOnGround p /\ wasOnGround p' = wasOnGround p.
Proof.
  intros Hd Hf H0 Hlt. unfold flyDurationFrames in Hlt.
  unfold flyingTick, updateFlyingState. cbv zeta.
  change (flyFrameCount (setFlyFrameCount ?v p)) with v.
  rewrite wrap64_small by lia.
  destruct (flyDurationFrames <=? flyFrameCount p + 1)%Z eqn:E;
    [apply Z.leb_le in E; unfold flyDurationFrames in E; lia|].
  change (X (setFlyFrameCount ?v p)) with (X p).
  set (q := if Qleb (X p + flySpeed) (mapWidth - playerCollisionWidth / 2)
            then setX (X p + flySpeed) (setFlyFrameCount (flyFrameCount p + 1) p)
            else setFlyFrameCount (flyFrameCount p + 1) p).
  assert (IsDead q = false /\ IsFlying q = true
          /\ flyFrameCount q = (flyFrameCount p + 1)%Z
          /\ X q = (if Qleb (X p + flySpeed) (mapWidth - playerCollisionWidth / 2)
                    then X p + flySpeed else X p)%Q
          /\ Y q = Y p /\ VelocityY q = VelocityY p
          /\ IsOnGround q = IsOnGround p /\ wasOnGround q = wasOnGround p)
    as (Hqd & Hqf & Hqc & Hqx & Hqy & Hqv & Hqg & Hqw).
  { subst q. destruct (Qleb _ _); simpl; repeat split; auto. }
  assert (updateAnimationState false q =
          if bool_decide (GetState (Player_Animation q) <> StateFly)
          then setAnimation (SetState StateFly (Player_Animation q)) q else q)
    as Ha.
  { unfold updateAnimationState. now rewrite Hqd, Hqf. }
  rewrite Ha.
  destruct (bool_decide (GetState (Player_Animation q) <> StateFly)) eqn:Eb;
    simpl; rewrite (proj1 (AnimationController_Update_state _)).
  - rewrite SetState_state. repeat split; auto.
  - apply bool_decide_eq_false in Eb. unfold GetState in Eb.
    destruct (decide (currentState (Player_Animation q) = StateFly));
      [|contradiction].
    repeat split; auto.
Qed.

(** The tick of flight on which the counter reaches the duration. *)
Lemma flyingTick_expiry (mapWidth : Q) (p : Player) :
  IsDead p = false -> IsFlying p = true ->
  (flyFrameCount p + 1 = flyDurationFrames)%Z ->
  let p' := flyingTick mapWidth p in
  IsFlying p' = false /\ flyFrameCount p' = 0%Z /\ X p' = X p
  /\ Y p' = Y p /\ VelocityY p' = VelocityY p /\ IsDead p' = false
  /\ currentState (Player_Animation (updateFlyingState mapWidth p)) = StateJumpLoop
  /\ (wasOnGround p = IsOnGround p ->
      currentState (Player_Animation p') = StateJumpLoop).
Proof.
  intros Hd Hf Hc. unfold flyDurationFrames in Hc.
  assert (updateFlyingState mapWidth p =
          setAnimation (SetState StateJumpLoop (Player_Animation p))
            (setFlyFrameCount 0 (setIsFlying false
               (setFlyFrameCount (flyFrameCount p + 1) p)))) as Hu.
  { unfold updateFlyingState. cbv zeta.
    change (flyFrameCount (setFlyFrameCount ?v p)) with v.
    rewrite wrap64_small by lia.
    destruct (flyDurationFrames <=? flyFrameCount p + 1)%Z eqn:E;
      [reflexivity|].
    apply Z.leb_gt in E. unfold flyDurationFrames in E. lia. }
  unfold flyingTick. cbv zeta. rewrite Hu.
  pose proof (SetState_state StateJumpLoop (Player_Animation p)) as Hs.
  revert Hs. generalize (SetState StateJumpLoop (Player_Animation p)).
  intros ac Hs.
  set (q := setAnimation ac _).
  pose proof (updateAnimationState_fields false q) as Ha. cbv zeta in Ha.
  destruct Ha as (HaX & HaY & HaV & _ & _ & _ & _ & HaD & _ & HaF & HaC & _).
  cbn [IsFlying flyFrameCount X Y VelocityY IsDead setAnimation].
  rewrite HaX, HaY, HaV, HaD, HaF, HaC.
  repeat (split; [first [reflexivity | exact Hd | exact Hs]|]).
  intros Hw. cbn [Player_Animation setAnimation].
  rewrite (proj1 (AnimationController_Update_state _)).
  clear HaX HaY HaV HaD HaF HaC.
  unfold updateAnimationState, GetState. subst q. simpl.
  rewrite Hd. destruct (IsOnGround p) eqn:Hg;
    repeat (rewrite ?Hw, ?Hg, ?Hs; simpl); reflexivity.
Qed.

(** A flying player's ticks, as long as it is not taken off screen. *)
Lemma runTicks_flying (obstacles : list Obstacle) (mapWidth : Q)
    (cameraX : nat -> Q) (keys : nat -> Keyboard) (p : Player) (k : nat) :
  IsDead p = false -> IsFlying p = true -> flyFrameCount p = 0%Z ->
  (forall j, (j < k)%nat ->
     IsDead (checkDeath (cameraX j)
               (runTicks obstacles mapWidth cameraX keys j p)) = false) ->
  (Z.of_nat k < flyDurationFrames)%Z ->
  let q := runTicks obstacles mapWidth cameraX keys k p in
  IsDead q = false /\ IsFlying q = true /\ flyFrameCount q = Z.of_nat k
  /\ Y q = Y p /\ VelocityY q = VelocityY p
  /\ IsOnGround q = IsOnGround p /\ wasOnGround q = wasOnGround p.
Proof.
  intros Hd Hf Hc. induction k as [|k IH]; intros Hscreen Hk.
  - simpl. repeat split; auto.
  - destruct IH as (Hqd & Hqf & Hqc & Hqy & Hqv & Hqg & Hqw);
      [intros j Hj; apply Hscreen; lia|lia|].
    cbn [runTicks]. cbv zeta.
    rewrite Player_Update_flying by (auto; apply Hscreen; lia).
    pose proof (flyingTick_going mapWidth
                  (runTicks obstacles mapWidth cameraX keys k p) Hqd Hqf)
      as Hg.
    rewrite Hqc in Hg. cbv zeta in Hg.
    destruct Hg as (H1 & H2 & _ & _ & H5 & H6 & H7 & H8 & H9); [lia|lia|].
    rewrite H1, H2, H5, H6, H7, H8, H9. repeat split; auto; lia.
Qed.

(** C5, as stated, fails: a flying player 35 pixels from the right end of
    the level is alive after the tick, still flying, its counter advanced
    from 10 to 11, and it has not moved. *)
Lemma C5_no_move_at_level_end :
  let p' := Player_Update [] levelWidth 60160 noKeys flyingAtEdge in
  IsDead flyingAtEdge = false /\ IsFlying flyingAtEdge = true
  /\ flyFrameCount flyingAtEdge = 10%Z
  /\ IsDead p' = false /\ IsFlying p' = true /\ flyFrameCount p' = 11%Z
  /\ X p' = X flyingAtEdge
  /\ ~ (X p' == X flyingAtEdge + flySpeed)%Q.
Proof. vm_compute. repeat split; discriminate. Qed.

(** C5, amended: a player that has just entered flight (flying, counter 0)
    and is not taken off screen.  On each of the next [flyDurationFrames]
    ticks the update is [flyingTick], which reads neither the obstacles nor
    the keyboard: y, the vertical velocity and the dead flag are unchanged
    (no gravity, no collision, no death by a monster).  Tick [k + 1] starts
    with the counter at [k].  Before the last of these ticks the counter
    advances by one, the animation state is Fly, and x grows by [flySpeed]
    unless that would exceed the level width minus half the collision
    width, in which case x is unchanged.  On tick [flyDurationFrames] the
    flying flag is cleared, the counter is reset to 0, x is unchanged and
    [updateFlyingState] sets the animation state to JumpLoop, which is
    still the state at the end of the tick when [wasOnGround] equals
    [IsOnGround]. *)
Theorem C5_flight_lasts_flyDurationFrames
    (obstacles : list Obstacle) (mapWidth : Q) (cameraX : nat -> Q)
    (keys : nat -> Keyboard) (p : Player) :
  IsDead p = false -> IsFlying p = true -> flyFrameCount p = 0%Z ->
  (forall j, (Z.of_nat j < flyDurationFrames)%Z ->
     IsDead (checkDeath (cameraX j)
               (runTicks obstacles mapWidth cameraX keys j p)) = false) ->
  forall k, (Z.of_nat k < flyDurationFrames)%Z ->
    let q := runTicks obstacles mapWidth cameraX keys k p in
    let q' := runTicks obstacles mapWidth cameraX keys (S k) p in
    let maxX := (mapWidth - playerCollisionWidth / 2)%Q in
    IsFlying q = true /\ flyFrameCount q = Z.of_nat k
    /\ q' = flyingTick mapWidth q
    /\ Y q' = Y p /\ VelocityY q' = VelocityY p /\ IsDead q' = false
    /\ ((Z.of_nat (S k) < flyDurationFrames)%Z ->
        IsFlying q' = true /\ flyFrameCount q' = Z.of_nat (S k)
        /\ X q' = (if Qleb (X q + flySpeed) maxX then X q + flySpeed else X q)%Q
        /\ currentState (Player_Animation q') = StateFly)
    /\ (Z.of_nat (S k) = flyDurationFrames ->
        IsFlying q' = false /\ flyFrameCount q' = 0%Z /\ X q' = X q
        /\ currentState (Player_Animation (updateFlyingState mapWidth q))
           = StateJumpLoop
        /\ (wasOnGround p = IsOnGround p ->
            currentState (Player_Animation q') = StateJumpLoop)).
Proof.
  intros Hd Hf Hc Hscreen k Hk q q' maxX.
  destruct (runTicks_flying obstacles mapWidth cameraX keys p k Hd Hf Hc)
    as (Hqd & Hqf & Hqc & Hqy & Hqv & Hqg & Hqw);
    [intros j Hj; apply Hscreen; lia|exact Hk|].
  fold q in Hqd, Hqf, Hqc, Hqy, Hqv, Hqg, Hqw.
  assert (q' = flyingTick mapWidth q) as Hq'.
  { subst q' q. cbn [runTicks].
    apply Player_Update_flying; auto. }
  split; [exact Hqf|]. split; [exact Hqc|]. split; [exact Hq'|].
  destruct (Z.eq_dec (Z.of_nat (S k)) flyDurationFrames) as [Hlast|Hnot].
  - pose proof (flyingTick_expiry mapWidth q Hqd Hqf) as He.
    cbv zeta in He. rewrite <- Hq' in He.
    destruct He as (H1 & H2 & H3 & H4 & H5 & H6 & H7 & H8); [lia|].
    split; [congruence|]. split; [congruence|]. split; [exact H6|].
    split; [intros; lia|]. intros _.
    split; [exact H1|]. split; [exact H2|]. split; [exact H3|].
    split; [exact H7|]. intros Hw. apply H8. congruence.
  - pose proof (flyingTick_going mapWidth q Hqd Hqf) as Hg.
    cbv zeta in Hg. rewrite <- Hq' in Hg.
    destruct Hg as (H1 & H2 & H3 & H4 & H5 & H6 & H7 & _); [lia|lia|].
    split; [congruence|]. split; [congruence|]. split; [exact H7|].
    split; [|intros; lia]. intros _.
    split; [exact H1|]. split; [lia|]. split; [exact H3|exact H4].
Qed.

Lemma staysOnScreen_runTicks (obstacles : list Obstacle) (mapWidth : Q)
    (cameraX : nat -> Q) (keys : nat -> Keyboard) (p : Player) (n k : nat) :
  staysOnScreen obstacles mapWidth cameraX keys n k
    (runTicks obstacles mapWidth cameraX keys k p) = true ->
  forall j, (k <= j < k + n)%nat ->
    IsDead (checkDeath (cameraX j)
              (runTicks obstacles mapWidth cameraX keys j p)) = false.
Proof.
  revert k. induction n as [|n IH]; intros k Hrun j Hj; [lia|].
  cbn [staysOnScreen] in Hrun. apply andb_true_iff in Hrun as [Hk Hrest].
  destruct (decide (j = k)) as [->|Hne].
  - now apply negb_true_iff in Hk.
  - apply (IH (S k)); [exact Hrest|lia].
Defined.

Lemma flyingStart_stays_on_screen (j : nat) :
  (Z.of_nat j < flyDurationFrames)%Z ->
  IsDead (checkDeath (flightCamera j)
            (runTicks [groundTile] levelWidth flightCamera (fun _ => noKeys) j
               flyingStart)) = false.
Proof.
  intros Hj.
  apply (staysOnScreen_runTicks [groundTile] levelWidth flightCamera
           (fun _ => noKeys) flyingStart 300 0).
  - vm_compute. reflexivity.
  - unfold flyDurationFrames in Hj. lia.
Defined.

Lemma C5_flight_lasts_flyDurationFrames_witness :
  IsFlying (runTicks [groundTile] levelWidth flightCamera (fun _ => noKeys)
              299 flyingStart) = true
  /\ IsFlying (runTicks [groundTile] levelWidth flightCamera (fun _ => noKeys)
                 300 flyingStart) = false.
Proof.
  pose proof (C5_flight_lasts_flyDurationFrames [groundTile] levelWidth
                flightCamera (fun _ => noKeys) flyingStart
                eq_refl eq_refl eq_refl flyingStart_stays_on_screen
                299%nat eq_refl) as H.
  cbv zeta in H. destruct H as (H1 & _ & _ & _ & _ & _ & _ & H8).
  split; [exact H1|]. apply H8. reflexivity.
Defined.

(** ** Session controller: pickups *)

Lemma touches_box (p q : Player) (o : Obstacle) :
  X q = X p -> Y q = Y p -> touches q o = touches p o.
Proof.
  intros Hx Hy. unfold touches, CheckCollision. simpl. now rewrite Hx, Hy.
Qed.

Lemma touchTool_flying (cameraX : Q) (p : Player) :
  IsFlying p = true -> touchTool cameraX p = setFlyFrameCount 0 p.
Proof. intros H. unfold touchTool. now rewrite H. Qed.

Lemma touchTool_fields (cameraX : Q) (p : Player) :
  IsFlying p = false ->
  let p' := touchTool cameraX p in
  IsFlying p' = true /\ flyFrameCount p' = 0%Z
  /\ X p' = (cameraX + inject_Z windowWidth / 2)%Q /\ Y p' = 240%Q
  /\ currentState (Player_Animation p') = StateFly
  /\ VelocityY p' = VelocityY p /\ IsOnGround p' = IsOnGround p
  /\ IsDead p' = IsDead p.
Proof.
  intros H. unfold touchTool. rewrite H. simpl.
  rewrite SetState_state. repeat split.
Qed.

Lemma scanTools_app (cameraX : Q) (l1 l2 : list Obstacle) (p : Player) :
  scanTools cameraX (l1 ++ l2) p =
  let '(p2, l2') := scanTools cameraX l2 p in
  let '(p1, l1') := scanTools cameraX l1 p2 in
  (p1, l1' ++ l2').
Proof.
  induction l1 as [|o l1 IH]; simpl.
  - now destruct (scanTools cameraX l2 p).
  - rewrite IH. destruct (scanTools cameraX l2 p) as [p2 l2'].
    destruct (scanTools cameraX l1 p2) as [p1 l1'].
    now destruct (touches p1 o).
Qed.

(** The index loop of [removeTouchedTools] never reads out of range, and
    on the first [n] entities it does what [scanTools] does. *)
Lemma removeLoop_scanTools (n : nat) (p : Player) (g : Game) :
  (n <= length (Obstacles g))%nat ->
  removeLoop n p g =
  Some (fst (scanTools (CameraX g) (take n (Obstacles g)) p),
        setObstacles
          (snd (scanTools (CameraX g) (take n (Obstacles g)) p)
           ++ drop n (Obstacles g)) g).
Proof.
  revert p g. induction n as [|i IH]; intros p g Hn.
  - simpl. rewrite drop_0. now destruct g.
  - cbn [removeLoop]. unfold removeToolAt.
    destruct (lookup_lt_is_Some_2 (Obstacles g) i) as [o Ho]; [lia|].
    rewrite Ho. cbn [mbind option_bind].
    rewrite (take_S_r _ _ _ Ho), scanTools_app. cbn [scanTools].
    fold (touches p o).
    pose proof (drop_S _ _ _ Ho) as Hdrop.
    destruct (touches p o) eqn:Ht; cbn [mbind option_bind].
    + rewrite IH.
      2:{ cbn [Obstacles setObstacles]. rewrite length_app, length_take.
          lia. }
      cbn [Obstacles setObstacles CameraX].
      rewrite take_app_length' by (rewrite length_take; lia).
      rewrite drop_app_length' by (rewrite length_take; lia).
      destruct (scanTools (CameraX g) (take i (Obstacles g))
                  (touchTool (CameraX g) p)) as [p1 l1].
      cbn [fst snd]. now rewrite app_nil_r.
    + rewrite IH by lia.
      destruct (scanTools (CameraX g) (take i (Obstacles g)) p) as [p1 l1].
      cbn [fst snd]. now rewrite Hdrop, <- app_assoc.
Qed.

Lemma removeTouchedTools_scanTools (g : Game) (p : Player) :
  Game_Player g = Some p ->
  removeTouchedTools g =
  Some (setPlayer (Some (fst (scanTools (CameraX g) (Obstacles g) p)))
          (setObstacles (snd (scanTools (CameraX g) (Obstacles g) p)) g)).
Proof.
  intros Hp. unfold removeTouchedTools. rewrite Hp.
  rewrite removeLoop_scanTools by lia.
  rewrite take_ge, drop_ge, app_nil_r by lia. reflexivity.
Qed.

Lemma scanTools_untouched (cameraX : Q) (l : list Obstacle) (p : Player) :
  existsb (touches p) l = false -> scanTools cameraX l p = (p, l).
Proof.
  induction l as [|o l IH]; simpl; [reflexivity|].
  intros H. apply orb_false_elim in H as [Ho Hl].
  now rewrite (IH Hl), Ho.
Qed.

(** A flying player is not moved by a pickup, so the scan filters the
    list against one and the same box. *)
Lemma scanTools_flying (cameraX : Q) (l : list Obstacle) (p : Player) :
  IsFlying p = true ->
  scanTools cameraX l p =
  (if existsb (touches p) l then setFlyFrameCount 0 p else p,
   List.filter (fun o => negb (touches p o)) l).
Proof.
  intros Hf. induction l as [|o l IH]; simpl; [reflexivity|].
  rewrite IH.
  assert (touches (if existsb (touches p) l then setFlyFrameCount 0 p else p) o
          = touches p o) as ->.
  { destruct (existsb (touches p) l); [|reflexivity].
    now apply touches_box. }
  destruct (touches p o) eqn:Ht; simpl.
  - f_equal. rewrite touchTool_flying.
    + now destruct (existsb (touches p) l).
    + now destruct (existsb (touches p) l).
  - reflexivity.
Qed.

Lemma existsb_last_split {A} (f : A -> bool) (l : list A) :
  existsb f l = true ->
  exists pre o suf, l = pre ++ o :: suf /\ f o = true /\ existsb f suf = false.
Proof.
  induction l as [|a l IH]; simpl; [discriminate|].
  destruct (existsb f l) eqn:Hl.
  - intros _. destruct (IH eq_refl) as (pre & o & suf & -> & Ho & Hs).
    exists (a :: pre), o, suf. auto.
  - rewrite orb_false_r. intros Ha. exists [], a, l. auto.
Qed.

(** A player that is not flying enters flight at the last pickup it
    touches; the pickups before that one are tested against the player at
    the anchor. *)
Lemma scanTools_entering (cameraX : Q) (pre suf : list Obstacle) (o : Obstacle)
    (p : Player) :
  IsFlying p = false -> touches p o = true -> existsb (touches p) suf = false ->
  scanTools cameraX (pre ++ o :: suf) p =
  (touchTool cameraX p,
   List.filter (fun e => negb (touches (touchTool cameraX p) e)) pre ++ suf).
Proof.
  intros Hf Ho Hs.
  rewrite scanTools_app. cbn [scanTools].
  rewrite (scanTools_untouched _ _ _ Hs), Ho.
  destruct (touchTool_fields cameraX p Hf) as (Hfly & Hcount & _).
  rewrite (scanTools_flying _ _ _ Hfly).
  f_equal. destruct (existsb _ pre); [|reflexivity].
  destruct (touchTool cameraX p); simpl in *. now subst.
Qed.

(** C6, as stated, fails: a player 100 ticks into its flight touches a
    pickup; the pickup is removed and the flight-frame counter is back at
    0, so the flight lasts 100 ticks longer. *)
Lemma C6_counter_reset_while_flying :
  IsFlying flyingMidway = true /\ flyFrameCount flyingMidway = 100%Z
  /\ exists g',
       removeTouchedTools gameFlyingOverTool = Some g'
       /\ Obstacles g' = [groundTile]
       /\ (IsFlying <$> Game_Player g') = Some true
       /\ (flyFrameCount <$> Game_Player g') = Some 0%Z.
Proof. repeat split. eexists. vm_compute. repeat split. Qed.

(** The player is moved to the anchor in the middle of the scan: of two
    pickups that both overlap the jumping player, only the later one in
    the list is removed in this tick. *)
Example first_of_two_touched_tools_stays :
  touches jumpingPlayer (toolAt 960) = true
  /\ touches jumpingPlayer (toolAt 1080) = true
  /\ (Obstacles <$> removeTouchedTools gameTwoTools)
     = Some [toolAt 960; groundTile].
Proof. vm_compute. repeat split. Qed.

(** C6, amended: [removeTouchedTools] scans the entities from the last to
    the first and removes every pickup that overlaps the player when the
    scan reaches it; nothing else is removed.  If some pickup overlaps the
    player, the flight-frame counter is reset to 0, also for a player that
    is already flying; such a player is otherwise unchanged, and exactly
    the pickups overlapping it are removed.  A player that is not flying
    enters flight at the last overlapping pickup of the list: flying is
    set, the counter is 0, the player is at x = camera + half the window
    width and y = 240, the animation state is Fly; that pickup is removed,
    and of the earlier entities those pickups that overlap the player at
    the anchor. *)
Theorem C6_pickups_removed_and_flight_entered (g : Game) (p : Player) :
  Game_Player g = Some p ->
  let cam := CameraX g in
  let l := Obstacles g in
  let p' := if existsb (touches p) l then touchTool cam p else p in
  exists l',
    removeTouchedTools g = Some (setPlayer (Some p') (setObstacles l' g))
    /\ (IsFlying p = true ->
        l' = List.filter (fun o => negb (touches p o)) l
        /\ p' = if existsb (touches p) l then setFlyFrameCount 0 p else p)
    /\ (IsFlying p = false ->
        (existsb (touches p) l = false -> l' = l)
        /\ (forall pre o suf,
              l = pre ++ o :: suf -> touches p o = true ->
              existsb (touches p) suf = false ->
              l' = List.filter (fun e => negb (touches (touchTool cam p) e)) pre
                   ++ suf)
        /\ (existsb (touches p) l = true ->
            IsFlying p' = true /\ flyFrameCount p' = 0%Z
            /\ X p' = (cam + inject_Z windowWidth / 2)%Q /\ Y p' = 240%Q
            /\ currentState (Player_Animation p') = StateFly
            /\ (length l' < length l)%nat)).
Proof.
  intros Hp cam l p'.
  exists (snd (scanTools cam l p)).
  rewrite (removeTouchedTools_scanTools g p Hp). fold cam l.
  destruct (IsFlying p) eqn:Hf.
  - rewrite (scanTools_flying cam l p Hf). cbn [fst snd].
    assert (p' = if existsb (touches p) l then setFlyFrameCount 0 p else p)
      as Hp'.
    { subst p'. destruct (existsb (touches p) l); [|reflexivity].
      now apply touchTool_flying. }
    split; [now rewrite Hp'|]. split; [auto|discriminate].
  - destruct (existsb (touches p) l) eqn:He.
    + destruct (existsb_last_split _ _ He) as (pre & o & suf & Hl & Ho & Hs).
      rewrite Hl, (scanTools_entering cam pre suf o p Hf Ho Hs). cbn [fst snd].
      split; [reflexivity|]. split; [discriminate|]. intros _.
      split; [discriminate|]. split.
      * intros pre2 o2 suf2 Heq Ho2 Hs2.
        pose proof (scanTools_entering cam pre suf o p Hf Ho Hs) as H1.
        rewrite Heq, (scanTools_entering cam pre2 suf2 o2 p Hf Ho2 Hs2) in H1.
        now injection H1.
      * intros _. destruct (touchTool_fields cam p Hf) as (H1 & H2 & H3 & H4 & H5 & _).
        subst p'. repeat (split; [assumption|]).
        rewrite !length_app. cbn [length].
        pose proof (List.filter_length_le
                      (fun e => negb (touches (touchTool cam p) e)) pre). lia.
    + rewrite (scanTools_untouched cam l p He). cbn [fst snd].
      split; [reflexivity|]. split; [discriminate|]. intros _.
      split; [reflexivity|]. split; [|discriminate].
      intros pre o suf Heq Ho _. exfalso.
      rewrite Heq, existsb_app in He. simpl in He. rewrite Ho in He.
      now rewrite orb_true_r in He.
Qed.

Lemma C6_pickups_removed_and_flight_entered_witness :
  removeTouchedTools gameTwoTools =
  Some (setPlayer (Some (touchTool 0 jumpingPlayer))
          (setObstacles [toolAt 960; groundTile] gameTwoTools))
  /\ removeTouchedTools gameFlyingOverTool =
     Some (setPlayer (Some (setFlyFrameCount 0 flyingMidway))
             (setObstacles [groundTile] gameFlyingOverTool)).
Proof.
  split.
  - destruct (C6_pickups_removed_and_flight_entered gameTwoTools jumpingPlayer
                eq_refl) as (l' & Hrem & _ & Hwalk).
    destruct (Hwalk eq_refl) as (_ & Hsplit & _).
    rewrite (Hsplit [toolAt 960; groundTile] (toolAt 1080) [] eq_refl eq_refl
               eq_refl) in Hrem.
    exact Hrem.
  - destruct (C6_pickups_removed_and_flight_entered gameFlyingOverTool
                flyingMidway eq_refl) as (l' & Hrem & Hfly & _).
    destruct (Hfly eq_refl) as (Hl' & _).
    rewrite Hl' in Hrem. exact Hrem.
Defined.

(** * Further properties *)

(** ** Level generator: gaps, exclusive hazards, the second loop again *)

Lemma gapRun_snoc (l : list MapItem) (c : MapItem) :
  gapRun (l ++ [c]) = if HasRoad c then O else S (gapRun l).
Proof. unfold gapRun. now rewrite fold_left_app. Qed.

(** Road and hazards of the cell that one iteration appends. *)
Lemma genCell_road (i : Z) (st : GenState) :
  (0 <= noRoadCount st <= 2)%Z ->
  exists c,
    result (genCell i st) = result st ++ [c]
    /\ HasObstacle c && HasMonster c = false
    /\ ((HasRoad c = true /\ noRoadCount (genCell i st) = 0%Z)
        \/ (HasRoad c = false /\ (noRoadCount st < 2)%Z
            /\ noRoadCount (genCell i st) = (noRoadCount st + 1)%Z)).
Proof.
  intros Hn. unfold genCell, Float32.
  assert (wrap64 (noRoadCount st + 1) = (noRoadCount st + 1)%Z) as Hw
      by (apply wrap64_small; lia).
  destruct (i <? 10); [|destruct (2 <=? noRoadCount st)%Z eqn:H2;
                         [|apply Z.leb_gt in H2]];
    destruct (prevHasObstacle st), (prevHasMonster st); simpl;
    repeat match goal with
           | |- context [Qltb ?a ?b] => destruct (Qltb a b) eqn:?; simpl
           end;
    eexists; (split; [reflexivity|]); simpl; (split; [reflexivity|]);
    rewrite ?Hw; auto.
Qed.

Lemma genCell_gap (i : Z) (st : GenState) : GapInv st -> GapInv (genCell i st).
Proof.
  intros [Hc Hp He].
  assert (0 <= noRoadCount st <= 2)%Z as Hn.
  { rewrite Hc. specialize (Hp (length (result st))).
    rewrite firstn_all in Hp. lia. }
  destruct (genCell_road i st Hn) as (c & Hres & Hex & Hroad).
  assert (gapRun (result st ++ [c]) <= 2)%nat as Hlast.
  { rewrite gapRun_snoc. destruct Hroad as [[Hr _]|[Hr [Hlt _]]]; rewrite Hr; lia. }
  split; rewrite Hres.
  - rewrite gapRun_snoc. destruct Hroad as [[Hr ->]|[Hr [_ ->]]]; rewrite Hr; lia.
  - intros k. destruct (decide (k <= length (result st))%nat).
    + rewrite take_app_le by lia. apply Hp.
    + rewrite take_ge by (rewrite length_app; simpl; lia). exact Hlast.
  - apply Forall_app. split; [exact He|]. now constructor.
Qed.

Lemma genLoop_gap (n : nat) (rnd : Rand) :
  GapInv (genLoop n (mkGenState rnd [] 0 false false)).
Proof.
  induction n as [|n IH].
  - split; simpl; [reflexivity| |constructor].
    intros k. rewrite take_nil. unfold gapRun. simpl. lia.
  - rewrite genLoop_S. now apply genCell_gap.
Qed.

(** Three cells in a row without road make a gap run of at least 3. *)
Lemma gapRun_three (l : list MapItem) (j : nat) (a b c : MapItem) :
  l !! j = Some a -> l !! S j = Some b -> l !! S (S j) = Some c ->
  HasRoad a = false -> HasRoad b = false -> HasRoad c = false ->
  (3 <= gapRun (take (S (S (S j))) l))%nat.
Proof.
  intros Ha Hb Hc Ra Rb Rc.
  rewrite (take_S_r _ _ _ Hc), (take_S_r _ _ _ Hb), (take_S_r _ _ _ Ha).
  rewrite !gapRun_snoc, Ra, Rb, Rc. lia.
Qed.

(** For a positive [count], [GenMap] is the first loop followed by the
    clearing of monster flags. *)
Lemma GenMap_cleared (count : Z) (rnd : Rand) :
  (0 < count)%Z ->
  exists l,
    GenMap count rnd = Some l
    /\ Forall2 cleared
         (result (genLoop (Z.to_nat count) (mkGenState rnd [] 0 false false))) l
    /\ (forall j c, l !! j = Some c -> HasRoad c = true -> isRunEdge l j ->
                    HasMonster c = false).
Proof.
  intros Hc. unfold GenMap.
  destruct (count <=? 0)%Z eqn:E; [apply Z.leb_le in E; lia|]. cbv zeta.
  destruct (genLoop_inv (Z.to_nat count) rnd) as [Hlen _ _ _ _ _ _ _].
  destruct (clearLoop_spec count (Z.to_nat count) 0
              (result (genLoop (Z.to_nat count) (mkGenState rnd [] 0 false false))))
    as (l & Hl & Hcl & Hedge); [lia|lia|].
  exists l. split; [exact Hl|]. split; [exact Hcl|].
  intros j c Hj. apply Hedge; [lia|exact Hj].
Qed.

Lemma GenMap_nonpositive (count : Z) (rnd : Rand) :
  (count <= 0)%Z -> GenMap count rnd = Some [].
Proof.
  intros H. unfold GenMap. apply Z.leb_le in H. now rewrite H.
Qed.

(** X1: [GenMap] returns exactly [count] cells, none for a non-positive
    [count], and cell [j] carries index [j]. *)
Theorem GenMap_cells_indexed (count : Z) (rnd : Rand) :
  exists l,
    GenMap count rnd = Some l
    /\ length l = Z.to_nat count
    /\ ((count <= 0)%Z -> l = [])
    /\ (forall j c, l !! j = Some c -> Index c = Z.of_nat j).
Proof.
  destruct (GenMap_spec count rnd) as (l & Hl & Hlen & Hidx & _).
  exists l. split; [exact Hl|]. split; [exact Hlen|]. split; [|exact Hidx].
  intros Hc. apply length_zero_iff_nil. lia.
Qed.

Lemma GenMap_cells_indexed_witness :
  GenMap (-3) (constStream (1 # 2)) = Some [].
Proof.
  destruct (GenMap_cells_indexed (-3) (constStream (1 # 2)))
    as (l & Hl & _ & Hnil & _).
  rewrite Hl. f_equal. apply Hnil. lia.
Defined.

(** X2: a generated level has no three consecutive cells without road. *)
Theorem GenMap_gaps_at_most_two (count : Z) (rnd : Rand) :
  exists l,
    GenMap count rnd = Some l
    /\ forall j a b c,
         l !! j = Some a -> l !! S j = Some b -> l !! S (S j) = Some c ->
         HasRoad a = true \/ HasRoad b = true \/ HasRoad c = true.
Proof.
  destruct (Z_le_gt_dec count 0) as [Hle|Hgt].
  - exists []. split; [now apply GenMap_nonpositive|].
    intros j a b c H. now rewrite lookup_nil in H.
  - destruct (GenMap_cleared count rnd) as (l & Hl & Hcl & _); [lia|].
    exists l. split; [exact Hl|]. intros j a' b' c' Ha' Hb' Hc'.
    destruct (Forall2_lookup_r _ _ _ _ _ Hcl Ha') as (a & Ha & Haa).
    destruct (Forall2_lookup_r _ _ _ _ _ Hcl Hb') as (b & Hb & Hbb).
    destruct (Forall2_lookup_r _ _ _ _ _ Hcl Hc') as (c & Hc & Hcc).
    apply cleared_fields in Haa as (_ & -> & _).
    apply cleared_fields in Hbb as (_ & -> & _).
    apply cleared_fields in Hcc as (_ & -> & _).
    destruct (HasRoad a) eqn:Ra; [now left|].
    destruct (HasRoad b) eqn:Rb; [right; now left|].
    destruct (HasRoad c) eqn:Rc; [right; now right|].
    exfalso.
    pose proof (gapRun_three _ j a b c Ha Hb Hc Ra Rb Rc) as H3.
    pose proof (gap_prefix _ (genLoop_gap (Z.to_nat count) rnd) (S (S (S j)))).
    lia.
Qed.

(** X3: no cell of a generated level has both an obstacle and a monster. *)
Theorem GenMap_hazards_exclusive (count : Z) (rnd : Rand) :
  exists l,
    GenMap count rnd = Some l
    /\ forall j c, l !! j = Some c ->
         ~ (HasObstacle c = true /\ HasMonster c = true).
Proof.
  destruct (Z_le_gt_dec count 0) as [Hle|Hgt].
  - exists []. split; [now apply GenMap_nonpositive|].
    intros j c H. now rewrite lookup_nil in H.
  - destruct (GenMap_cleared count rnd) as (l & Hl & Hcl & _); [lia|].
    exists l. split; [exact Hl|]. intros j c' Hc' [Ho Hm].
    destruct (Forall2_lookup_r _ _ _ _ _ Hcl Hc') as (c & Hc & Hcc).
    apply cleared_fields in Hcc as (_ & _ & Hob & _ & Hmo).
    pose proof (gap_exclusive _ (genLoop_gap (Z.to_nat count) rnd)) as He.
    pose proof (proj1 (Forall_lookup _ _) He j c Hc) as Hex. simpl in Hex.
    rewrite <- Hob, Ho, (Hmo Hm) in Hex. discriminate.
Qed.

(** An iteration of the second loop changes nothing when the cell it
    looks at is not a road cell on a run edge with a monster. *)
Lemma clearEdgeMonster_fixed (count : Z) (i : nat) (res : list MapItem) :
  count = Z.of_nat (length res) -> (i < length res)%nat ->
  (forall c, res !! i = Some c -> HasRoad c = true -> isRunEdge res i ->
             HasMonster c = false) ->
  clearEdgeMonster count i res = Some res.
Proof.
  intros Hcount Hi Hedge.
  destruct (lookup_lt_is_Some_2 res i Hi) as [item Hitem].
  unfold clearEdgeMonster. rewrite Hitem. simpl.
  destruct (HasRoad item) eqn:Hroad; simpl; [|reflexivity].
  assert (isRunEdge res i -> <[i:=setHasMonster false item]> res = res) as Hid.
  { intros He. apply list_insert_id. rewrite Hitem. f_equal.
    specialize (Hedge item Hitem Hroad He).
    destruct item; simpl in *. now subst. }
  destruct (Z.of_nat i =? 0)%Z eqn:H0; simpl.
  { apply Z.eqb_eq in H0.
    assert (isRunEdge res i) as He by (left; lia).
    destruct (Z.of_nat i =? count - 1)%Z eqn:Hlast; simpl.
    - now rewrite Hid.
    - apply Z.eqb_neq in Hlast.
      destruct (lookup_lt_is_Some_2 res (i + 1)%nat) as [next Hnext]; [lia|].
      rewrite Hnext. simpl. now rewrite Hid. }
  apply Z.eqb_neq in H0.
  destruct (lookup_lt_is_Some_2 res (i - 1)%nat) as [prev Hprev]; [lia|].
  rewrite Hprev. simpl.
  destruct (Z.of_nat i =? count - 1)%Z eqn:Hlast; simpl.
  { apply Z.eqb_eq in Hlast. rewrite orb_true_r.
    rewrite Hid; [reflexivity|]. right; left. lia. }
  apply Z.eqb_neq in Hlast.
  destruct (lookup_lt_is_Some_2 res (i + 1)%nat) as [next Hnext]; [lia|].
  rewrite Hnext. simpl.
  destruct (HasRoad prev) eqn:Rp; simpl.
  - destruct (HasRoad next) eqn:Rn; simpl; [reflexivity|].
    rewrite Hid; [reflexivity|]. right; right; right.
    exists next. replace (S i) with (i + 1)%nat by lia. auto.
  - rewrite Hid; [reflexivity|]. right; right; left. eauto.
Qed.

Lemma clearLoop_fixed (count : Z) (idx : list nat) (res : list MapItem) :
  count = Z.of_nat (length res) ->
  (forall i, In i idx -> (i < length res)%nat) ->
  (forall j c, res !! j = Some c -> HasRoad c = true -> isRunEdge res j ->
               HasMonster c = false) ->
  clearLoop count idx res = Some res.
Proof.
  intros Hcount Hidx Hedge. induction idx as [|i idx IH]; [reflexivity|].
  cbn [clearLoop].
  assert (clearEdgeMonster count i res = Some res) as ->.
  { apply clearEdgeMonster_fixed; [exact Hcount| |apply Hedge].
    apply Hidx. now left. }
  simpl. apply IH. intros j Hj. apply Hidx. now right.
Qed.

(** X4: the second loop of [GenMap] has nothing left to do on a generated
    level: run once more on the result, it returns the level unchanged. *)
Theorem GenMap_second_loop_idempotent (count : Z) (rnd : Rand) :
  exists l,
    GenMap count rnd = Some l
    /\ clearLoop count (seq 0 (Z.to_nat count)) l = Some l.
Proof.
  destruct (GenMap_spec count rnd)
    as (l & Hl & Hlen & _ & _ & _ & _ & _ & Hedge).
  exists l. split; [exact Hl|].
  destruct (Z_le_gt_dec count 0) as [Hle|Hgt].
  - replace (Z.to_nat count) with 0%nat by lia. reflexivity.
  - apply clearLoop_fixed; [lia| |exact Hedge].
    intros i Hi. apply in_seq in Hi. lia.
Qed.

(** ** Player: the animation state machine *)

(** X8: [updateAnimationState] for a player that is neither dead nor
    flying.  Leaving the ground from Idle, Move or JumpLoop starts
    JumpBefore at frame 0; landing from JumpLoop starts JumpEnd at frame 0;
    a player that stays on the ground in Idle or Move is in Move exactly
    when a horizontal key was pressed.  In each case [wasOnGround] is the
    grounded flag afterwards. *)
Theorem updateAnimationState_transitions (isMoving : bool) (p : Player) :
  IsDead p = false -> IsFlying p = false ->
  let s := currentState (Player_Animation p) in
  let p' := updateAnimationState isMoving p in
  let s' := currentState (Player_Animation p') in
  wasOnGround p' = IsOnGround p
  /\ (wasOnGround p = true -> IsOnGround p = false ->
      s = StateIdle \/ s = StateMove \/ s = StateJumpLoop ->
      s' = StateJumpBefore /\ currentFrame (Player_Animation p') = 0%Q)
  /\ (wasOnGround p = false -> IsOnGround p = true -> s = StateJumpLoop ->
      s' = StateJumpEnd /\ currentFrame (Player_Animation p') = 0%Q)
  /\ (wasOnGround p = true -> IsOnGround p = true ->
      s = StateIdle \/ s = StateMove ->
      s' = (if isMoving then StateMove else StateIdle)
      /\ (s' = s -> Player_Animation p' = Player_Animation p)).
Proof.
  intros Hd Hf s p' s'. subst s s' p'.
  unfold updateAnimationState, GetState. rewrite Hd, Hf.
  split.
  - destruct (currentState (Player_Animation p));
      destruct (wasOnGround p) eqn:Hw, (IsOnGround p) eqn:Hg; simpl;
      split_ifs; simpl in *; congruence.
  - split; [|split].
    + intros Hw Hg [Hs|[Hs|Hs]];
        repeat (rewrite ?Hw, ?Hg, ?Hs; unfold SetState; simpl); auto.
    + intros Hw Hg Hs.
      repeat (rewrite ?Hw, ?Hg, ?Hs; unfold SetState; simpl); auto.
    + intros Hw Hg [Hs|Hs]; destruct isMoving;
        repeat (rewrite ?Hw, ?Hg, ?Hs; unfold SetState; simpl);
        split; auto; discriminate.
Qed.

Lemma updateAnimationState_transitions_witness :
  currentState
    (Player_Animation
       (updateAnimationState false (setIsOnGround false standingPlayer)))
  = StateJumpBefore.
Proof.
  apply (updateAnimationState_transitions false
           (setIsOnGround false standingPlayer) eq_refl eq_refl);
    auto.
Defined.

(** ** Player: death *)

(** X9: [handleDeath] is idempotent: a second call changes nothing, so the
    death sound restarts at most once.  The first call leaves the player
    dead, with the latch set when there is a death sound, and does not
    touch a sound that has already been played. *)
Theorem handleDeath_idempotent (p : Player) :
  handleDeath (handleDeath p) = handleDeath p
  /\ IsDead (handleDeath p) = true
  /\ (dieSound p <> None -> hasPlayedDieSound (handleDeath p) = true)
  /\ (hasPlayedDieSound p = true -> dieSound (handleDeath p) = dieSound p)
  /\ (hasPlayedDieSound p = false ->
      dieSound (handleDeath p) = RewindAndPlay <$> dieSound p).
Proof.
  unfold handleDeath.
  destruct (IsDead p) eqn:Hd, (dieSound p) eqn:Hs,
    (hasPlayedDieSound p) eqn:Hp; simpl;
    repeat (rewrite ?Hd, ?Hs, ?Hp; simpl); repeat split; intros;
    congruence.
Qed.

Lemma handleDeath_idempotent_witness :
  hasPlayedDieSound (handleDeath standingPlayer) = true.
Proof.
  apply (handleDeath_idempotent standingPlayer). discriminate.
Defined.

(** ** Player: the collision pass *)

Lemma checkCollision_untouched (obstacles : list Obstacle) (p : Player) :
  (forall e, In e obstacles ->
     CheckCollision p e = false \/ Obstacle_Type e = ObstacleTypeTool) ->
  checkCollisionWithObstacles obstacles p = setIsOnGround false p.
Proof.
  intros H. unfold checkCollisionWithObstacles.
  rewrite <- (app_nil_r obstacles). now rewrite collisionLoop_skip.
Qed.

(** X10: when every entity is a pickup or does not overlap the player, the
    collision pass only clears the grounded flag: pickups neither carry
    nor stop the player. *)
Theorem checkCollision_nothing_overlaps (obstacles : list Obstacle) (p : Player) :
  (forall e, In e obstacles ->
     CheckCollision p e = false \/ Obstacle_Type e = ObstacleTypeTool) ->
  checkCollisionWithObstacles obstacles p = setIsOnGround false p.
Proof. apply checkCollision_untouched. Qed.

Lemma checkCollision_nothing_overlaps_witness :
  checkCollisionWithObstacles [farTile; toolAt 600] (setY 300 fallingPlayer)
  = setIsOnGround false (setY 300 fallingPlayer).
Proof.
  apply checkCollision_nothing_overlaps.
  intros e [<-|[<-|[]]]; [left|right]; reflexivity.
Defined.

(** X11: a player moving upwards passes through everything: whatever the
    entities, the collision pass leaves x, y and the velocity as they are
    and the player not grounded. *)
Theorem checkCollision_rising_passes (obstacles : list Obstacle) (p : Player) :
  Qltb (VelocityY p) 0 = true ->
  let p' := checkCollisionWithObstacles obstacles p in
  X p' = X p /\ Y p' = Y p /\ VelocityY p' = VelocityY p
  /\ IsOnGround p' = false.
Proof.
  intros Hv.
  assert (Qleb 0 (VelocityY p) = false) as Hn.
  { apply not_true_is_false. rewrite Qleb_le. apply Qltb_lt in Hv. lra. }
  destruct (collisionLoop_rising obstacles (setIsOnGround false p) Hn)
    as (H1 & H2 & H3 & H4 & _).
  unfold checkCollisionWithObstacles. cbv zeta. auto.
Qed.

Lemma checkCollision_rising_passes_witness :
  Y (checkCollisionWithObstacles [groundTile; blockOnTile]
       (setVelocityY (-5) (setY 605 fallingPlayer))) = 605%Q.
Proof.
  apply (checkCollision_rising_passes [groundTile; blockOnTile]
           (setVelocityY (-5) (setY 605 fallingPlayer))).
  reflexivity.
Defined.

(** X12: touching a monster kills: when the first entity that overlaps the
    player and is not a pickup is a monster, the pass ends there with
    [handleDeath]; the entities after it are not looked at, and the player
    is dead and not grounded, whatever its velocity. *)
Theorem checkCollision_monster_kills
    (pre post : list Obstacle) (m : Obstacle) (p : Player) :
  (forall e, In e pre ->
     CheckCollision p e = false \/ Obstacle_Type e = ObstacleTypeTool) ->
  Obstacle_Type m = ObstacleTypeMonster -> CheckCollision p m = true ->
  let p' := checkCollisionWithObstacles (pre ++ m :: post) p in
  p' = handleDeath (setIsOnGround false p)
  /\ IsDead p' = true /\ IsOnGround p' = false
  /\ X p' = X p /\ Y p' = Y p /\ VelocityY p' = VelocityY p.
Proof.
  intros Hpre Hm Hc p'.
  assert (p' = handleDeath (setIsOnGround false p)) as Hp'.
  { subst p'. unfold checkCollisionWithObstacles.
    rewrite collisionLoop_skip by exact Hpre. cbn [collisionLoop].
    change (CheckCollision (setIsOnGround false p) m) with (CheckCollision p m).
    now rewrite Hc, Hm. }
  split; [exact Hp'|]. rewrite Hp'.
  pose proof (handleDeath_fields (setIsOnGround false p)) as H.
  cbv zeta in H. destruct H as (H1 & H2 & H3 & H4 & H5 & _).
  rewrite H1, H2, H3, H4, H5. repeat split.
Qed.

Lemma checkCollision_monster_kills_witness :
  IsDead (checkCollisionWithObstacles ([farTile] ++ monsterOnTile :: [groundTile])
            (setY 590 fallingPlayer)) = true.
Proof.
  apply (checkCollision_monster_kills [farTile] [groundTile] monsterOnTile
           (setY 590 fallingPlayer)).
  - intros e [<-|[]]. left. reflexivity.
  - reflexivity.
  - reflexivity.
Defined.

(** ** Player: horizontal movement *)

Lemma wouldCollideLoop_false (obstacles : list Obstacle) (p : Player) :
  wouldCollideLoop obstacles p = false ->
  forall o, In o obstacles -> blocking o = true -> CheckCollision p o = false.
Proof.
  induction obstacles as [|e rest IH]; simpl; [intros _ o []|].
  intros H o [<-|Hin] Hb.
  - unfold blocking in Hb. apply negb_true_iff in Hb. rewrite Hb in H.
    destruct (CheckCollision p e); [discriminate|reflexivity].
  - apply IH; trivial.
    destruct (bool_decide _ || bool_decide _); [exact H|].
    destruct (CheckCollision p e); [discriminate|exact H].
Qed.

(** X13: walking never ends inside a wall: after the horizontal moves of a
    tick either the player was not moved at all, or no ground or obstacle
    entity overlaps it at its new position. *)
Theorem moveHorizontal_never_into_blocker
    (keys : Keyboard) (obstacles : list Obstacle) (mapWidth : Q) (p : Player) :
  let p' := fst (moveHorizontal keys obstacles mapWidth p) in
  p' = p
  \/ forall o, In o obstacles -> blocking o = true -> CheckCollision p' o = false.
Proof.
  unfold moveHorizontal. cbv zeta.
  assert (forall (q : Player) (x : Q) (b : bool),
            wouldCollideHorizontal x obstacles q = false ->
            forall o, In o obstacles -> blocking o = true ->
              CheckCollision (setFacingLeft b (setX x q)) o = false) as Hfree.
  { intros q x b H o Hin Hb.
    exact (wouldCollideLoop_false obstacles (setX x q) H o Hin Hb). }
  destruct (keys KeyArrowLeft || keys KeyA);
    destruct (keys KeyArrowRight || keys KeyD); cbn [fst].
  - match goal with
    | |- context [Qleb ?a ?b && negb (wouldCollideHorizontal ?x obstacles ?q)] =>
        destruct (Qleb a b); cbn [andb];
        [destruct (wouldCollideHorizontal x obstacles q) eqn:E2; cbn [negb]|]
    end.
    + destruct (Qleb _ _); cbn [andb];
        [destruct (wouldCollideHorizontal _ obstacles p) eqn:E1; cbn [negb]|];
        auto.
    + right. now apply Hfree.
    + destruct (Qleb _ _); cbn [andb];
        [destruct (wouldCollideHorizontal _ obstacles p) eqn:E1; cbn [negb]|];
        auto.
  - destruct (Qleb _ _); cbn [andb];
      [destruct (wouldCollideHorizontal _ obstacles p) eqn:E1; cbn [negb]|];
      auto.
  - destruct (Qleb _ _); cbn [andb];
      [destruct (wouldCollideHorizontal _ obstacles p) eqn:E1; cbn [negb]|];
      auto.
  - now left.
Qed.

Lemma checkDeath_X (cameraX : Q) (p : Player) : X (checkDeath cameraX p) = X p.
Proof.
  unfold checkDeath. destruct (GetCollisionBox p).
  match goal with |- context [if ?c then _ else _] => destruct c end;
    [|reflexivity].
  pose proof (handleDeath_fields p) as H. cbv zeta in H. tauto.
Qed.

Lemma updateFlyingState_X (mapWidth : Q) (p : Player) :
  X (updateFlyingState mapWidth p) = X p
  \/ (X (updateFlyingState mapWidth p) = (X p + flySpeed)%Q
      /\ (X p + flySpeed <= mapWidth - playerCollisionWidth / 2)%Q).
Proof.
  unfold updateFlyingState. cbv zeta.
  destruct (flyDurationFrames <=? _)%Z; [now left|].
  change (X (setFlyFrameCount ?v p)) with (X p).
  destruct (Qleb (X p + flySpeed) (mapWidth - playerCollisionWidth / 2)) eqn:E;
    [|now left].
  right. split; [reflexivity|]. now apply Qleb_le.
Qed.

Lemma moveHorizontal_X (keys : Keyboard) (obstacles : list Obstacle)
    (mapWidth : Q) (p : Player) :
  (playerCollisionWidth / 2 <= X p)%Q ->
  (X p <= mapWidth - playerCollisionWidth / 2)%Q ->
  let p' := fst (moveHorizontal keys obstacles mapWidth p) in
  (playerCollisionWidth / 2 <= X p')%Q
  /\ (X p' <= mapWidth - playerCollisionWidth / 2)%Q.
Proof.
  intros Hmin Hmax. unfold moveHorizontal. cbv zeta.
  assert (0 <= playerSpeed)%Q as Hs by (unfold playerSpeed; lra).
  set (lo := (playerCollisionWidth / 2)%Q) in *.
  set (hi := (mapWidth - lo)%Q) in *.
  destruct (keys KeyArrowLeft || keys KeyA);
    destruct (keys KeyArrowRight || keys KeyD); cbn [fst];
    repeat match goal with
           | |- context [Qleb ?a ?b && ?c] =>
               let E := fresh "E" in
               destruct (Qleb a b) eqn:E; cbn [andb];
               [apply Qleb_le in E; destruct c|]
           end;
    simpl in *; split; lra.
Qed.

(** X14: [Player.Update] keeps the player inside the level: when the
    collision box lies between the left end (x = 0) and the right end (x =
    [mapWidth]) of the level before the tick, it does so after the tick,
    whether the player is dead, flying or walking. *)
Theorem Player_Update_stays_in_level
    (obstacles : list Obstacle) (mapWidth cameraX : Q) (keys : Keyboard)
    (p : Player) :
  (playerCollisionWidth / 2 <= X p)%Q ->
  (X p <= mapWidth - playerCollisionWidth / 2)%Q ->
  let p' := Player_Update obstacles mapWidth cameraX keys p in
  (playerCollisionWidth / 2 <= X p')%Q
  /\ (X p' <= mapWidth - playerCollisionWidth / 2)%Q
  /\ (0 <= left (GetCollisionBox p'))%Q
  /\ (right (GetCollisionBox p') <= mapWidth)%Q.
Proof.
  intros Hmin Hmax p'.
  assert ((playerCollisionWidth / 2 <= X p')%Q
          /\ (X p' <= mapWidth - playerCollisionWidth / 2)%Q) as [H1 H2].
  { subst p'. unfold Player_Update.
    set (p0 := if negb (IsDead p) then checkDeath cameraX p else p).
    assert (X p0 = X p) as H0.
    { subst p0. destruct (IsDead p); [reflexivity|apply checkDeath_X]. }
    cbv zeta. destruct (IsDead p0).
    { simpl. rewrite H0. auto. }
    destruct (IsFlying p0).
    { simpl.
      pose proof (updateAnimationState_fields false
                    (updateFlyingState mapWidth p0)) as Ha.
      cbv zeta in Ha. destruct Ha as (-> & _).
      assert (0 <= flySpeed)%Q by (unfold flySpeed; lra).
      destruct (updateFlyingState_X mapWidth p0) as [->|[-> Hle]];
        rewrite H0 in *; split; lra. }
    pose proof (moveHorizontal_X keys obstacles mapWidth p0) as Hm.
    rewrite H0 in Hm. specialize (Hm Hmin Hmax). cbv zeta in Hm.
    destruct (moveHorizontal keys obstacles mapWidth p0) as [q m].
    cbn [fst] in Hm. simpl.
    pose proof (updateAnimationState_fields m
                  (checkCollisionWithObstacles obstacles
                     (applyGravity (jumpTrigger (keys KeySpace) q)))) as Ha.
    cbv zeta in Ha. destruct Ha as (-> & _).
    pose proof (collisionLoop_fields obstacles
                  (setIsOnGround false
                     (applyGravity (jumpTrigger (keys KeySpace) q)))) as Hc.
    cbv zeta in Hc. destruct Hc as (Hc & _).
    unfold checkCollisionWithObstacles. rewrite Hc.
    change (X (setIsOnGround false
                 (applyGravity (jumpTrigger (keys KeySpace) q))))
      with (X (jumpTrigger (keys KeySpace) q)).
    assert (X (jumpTrigger (keys KeySpace) q) = X q) as ->.
    { unfold jumpTrigger. split_ifs; reflexivity. }
    exact Hm. }
  split; [exact H1|]. split; [exact H2|]. simpl. split; lra.
Qed.

Lemma Player_Update_stays_in_level_witness :
  (right (GetCollisionBox
            (Player_Update [groundTile] levelWidth 0 arrowRight
               (setX (levelWidth - 32) standingPlayer))) <= levelWidth)%Q.
Proof.
  apply (Player_Update_stays_in_level [groundTile] levelWidth 0 arrowRight
           (setX (levelWidth - 32) standingPlayer)); discriminate.
Defined.

(** ** Player: standing and jumping *)

Lemma collisionLoop_land (o : Obstacle) (post : list Obstacle) (q : Player) :
  solid o = true -> CheckCollision q o = true -> Qleb 0 (VelocityY q) = true ->
  collisionLoop (o :: post) q
  = collisionLoop post (land (top (GetCollisionBox o)) q).
Proof.
  intros Hs Hc Hv. cbn [collisionLoop]. rewrite Hc. cbn [negb].
  rewrite Hv, (CheckCollision_bottom_below_top q o Hc). cbn [andb].
  unfold solid in Hs. destruct (Obstacle_Type o); try discriminate; reflexivity.
Qed.

Lemma CheckCollision_same_box (p q : Player) (o : Obstacle) :
  X q = X p -> Y q = Y p -> CheckCollision q o = CheckCollision p o.
Proof. intros Hx Hy. unfold CheckCollision. simpl. now rewrite Hx, Hy. Qed.



(** X16: no jump in mid-air: in the tick of a player that is alive, on
    screen, not flying and not grounded, the jump key only sets the latch
    [wasSpaceDown]: the rest of the tick runs on the player as it was
    after the horizontal moves, and the jump sound is not restarted. *)
Theorem Player_Update_no_jump_in_air
    (obstacles : list Obstacle) (mapWidth cameraX : Q) (keys : Keyboard)
    (p : Player) :
  IsDead p = false -> IsDead (checkDeath cameraX p) = false ->
  IsFlying p = false -> IsOnGround p = false ->
  let moved := moveHorizontal keys obstacles mapWidth p in
  let p' := Player_Update obstacles mapWidth cameraX keys p in
  p' = finishTick (snd moved) obstacles
         (setWasSpaceDown (keys KeySpace) (fst moved))
  /\ jumpSound p' = jumpSound p
  /\ wasSpaceDown p' = keys KeySpace.
Proof.
  intros Hd Hc Hf Hg moved p'.
  pose proof (moveHorizontal_fields keys obstacles mapWidth p) as Hm.
  cbv zeta in Hm. fold moved in Hm.
  destruct Hm as (_ & _ & HmG & _ & _ & HmJ & _).
  assert (p' = finishTick (snd moved) obstacles
                 (setWasSpaceDown (keys KeySpace) (fst moved))) as Hp'.
  { subst p'. rewrite Player_Update_walking by assumption. fold moved.
    f_equal. unfold jumpTrigger. now rewrite HmG, Hg. }
  split; [exact Hp'|]. rewrite Hp'. split.
  - unfold finishTick. cbv zeta. cbn [jumpSound setAnimation].
    pose proof (updateAnimationState_fields (snd moved)
                  (checkCollisionWithObstacles obstacles
                     (applyGravity
                        (setWasSpaceDown (keys KeySpace) (fst moved))))) as Ha.
    cbv zeta in Ha. destruct Ha as (_ & _ & _ & _ & _ & -> & _).
    pose proof (collisionLoop_fields obstacles
                  (setIsOnGround false
                     (applyGravity
                        (setWasSpaceDown (keys KeySpace) (fst moved))))) as Hcl.
    cbv zeta in Hcl. destruct Hcl as (_ & _ & Hj & _).
    unfold checkCollisionWithObstacles. rewrite Hj. exact HmJ.
  - now rewrite finishTick_wasSpaceDown.
Qed.

Lemma Player_Update_no_jump_in_air_witness :
  jumpSound (Player_Update [groundTile] levelWidth 0 spaceHeld fallingPlayer)
  = jumpSound fallingPlayer.
Proof.
  apply (Player_Update_no_jump_in_air [groundTile] levelWidth 0 spaceHeld
           fallingPlayer); reflexivity.
Defined.

(** ** Session controller *)

(** X17: the camera only moves right and never passes its limit: from a
    position not beyond the limit, [updateCamera] moves the camera by the
    speed (15 for a flying player, 5 otherwise) or onto the limit,
    whichever is nearer, and changes nothing else; with a dead player it
    changes nothing at all. *)
Theorem updateCamera_bounded (g : Game) :
  (CameraX g <= maxCameraX g)%Q ->
  let g' := updateCamera g in
  let dead := match Game_Player g with Some p => IsDead p | None => false end in
  let speed :=
    if match Game_Player g with Some p => IsFlying p | None => false end
    then 15%Q else cameraSpeed in
  g' = setCameraX (CameraX g') g
  /\ (CameraX g <= CameraX g')%Q /\ (CameraX g' <= maxCameraX g)%Q
  /\ (dead = true -> g' = g)
  /\ (dead = false -> (CameraX g + speed <= maxCameraX g)%Q ->
      CameraX g' = (CameraX g + speed)%Q)
  /\ (dead = false -> (CameraX g < maxCameraX g)%Q ->
      (maxCameraX g < CameraX g + speed)%Q -> CameraX g' = maxCameraX g).
Proof.
  intros Hle g' dead speed. subst g' dead.
  unfold updateCamera. fold (maxCameraX g).
  assert (0 < speed)%Q as Hs.
  { subst speed. destruct (match Game_Player g with Some _ => _ | None => _ end);
      reflexivity. }
  destruct (match Game_Player g with Some p => IsDead p | None => false end).
  { destruct g; cbn [CameraX setCameraX] in *.
    repeat split; intros; first [discriminate | reflexivity | assumption | lra]. }
  cbv zeta. fold speed.
  destruct (Qltb (CameraX g) (maxCameraX g)) eqn:E1.
  - apply Qltb_lt in E1.
    change (CameraX (setCameraX ?v g)) with v.
    destruct (Qltb (maxCameraX g) (CameraX g + speed)) eqn:E2.
    + apply Qltb_lt in E2. cbn [CameraX setCameraX].
      repeat split; intros; first [discriminate | reflexivity | lra].
    + assert (~ (maxCameraX g < CameraX g + speed)%Q) as Hn.
      { intros H. apply Qltb_lt in H. congruence. }
      cbn [CameraX setCameraX].
      repeat split; intros; first [discriminate | reflexivity | lra].
  - assert (~ (CameraX g < maxCameraX g)%Q) as Hn.
    { intros H. apply Qltb_lt in H. congruence. }
    destruct g; cbn [CameraX setCameraX] in *.
    repeat split; intros;
      first [discriminate | reflexivity | assumption | lra].
Qed.

Lemma updateCamera_bounded_witness :
  CameraX (updateCamera gameRunning) = (100 + cameraSpeed)%Q.
Proof.
  apply (updateCamera_bounded gameRunning); [discriminate|reflexivity|discriminate].
Defined.

Lemma scanTools_keeps (cameraX : Q) (l : list Obstacle) (p : Player) :
  let l' := snd (scanTools cameraX l p) in
  List.filter (fun o => negb (isTool o)) l'
  = List.filter (fun o => negb (isTool o)) l
  /\ (length l' <= length l)%nat
  /\ (forall e, In e l' -> In e l).
Proof.
  induction l as [|o l IH]; simpl; [repeat split; auto|].
  destruct (scanTools cameraX l p) as [p1 l1]. simpl in IH.
  destruct IH as (Hf & Hlen & Hin).
  destruct (touches p1 o) eqn:Ht; simpl.
  - unfold touches in Ht. apply andb_true_iff in Ht as [Ht _].
    unfold isTool at 2. rewrite Ht. simpl.
    split; [exact Hf|]. split; [lia|]. intros e He. right. now apply Hin.
  - rewrite Hf. split; [reflexivity|]. split; [lia|].
    intros e [<-|He]; [now left|right; now apply Hin].
Qed.

Lemma updateCamera_fields (g : Game) :
  MapItems (updateCamera g) = MapItems g
  /\ Obstacles (updateCamera g) = Obstacles g
  /\ Game_Player (updateCamera g) = Game_Player g
  /\ bgmPlaying (updateCamera g) = bgmPlaying g
  /\ hasStoppedBGM (updateCamera g) = hasStoppedBGM g.
Proof. unfold updateCamera. split_ifs; simpl; repeat split. Qed.

(** X18: [Game.Update] never reads a slice out of range, never changes
    the lane cells, and removes nothing but pickups: the entities that
    are not pickups are the same, in the same order, after the tick; the
    player pointer stays nil or non-nil. *)
Theorem Game_Update_removes_only_pickups (keys : Keyboard) (g : Game) :
  exists g',
    Game_Update keys g = Some g'
    /\ MapItems g' = MapItems g
    /\ List.filter (fun o => negb (isTool o)) (Obstacles g')
       = List.filter (fun o => negb (isTool o)) (Obstacles g)
    /\ (length (Obstacles g') <= length (Obstacles g))%nat
    /\ (forall e, In e (Obstacles g') -> In e (Obstacles g))
    /\ (Game_Player g' = None <-> Game_Player g = None).
Proof.
  unfold Game_Update.
  destruct (Game_Player g) as [p|] eqn:Hp.
  - cbv zeta.
    set (p1 := Player_Update _ _ _ _ p).
    destruct (IsDead p1).
    + destruct (negb (hasStoppedBGM (setPlayer (Some p1) g)));
        eexists; (split; [reflexivity|]);
        unfold PauseBGM; split_ifs; simpl; rewrite ?Hp; repeat split; auto;
        try discriminate.
    + rewrite (removeTouchedTools_scanTools (setPlayer (Some p1) g) p1 eq_refl).
      cbn [mbind option_bind CameraX Obstacles setPlayer].
      eexists. split; [reflexivity|].
      destruct (updateCamera_fields
                  (setPlayer
                     (Some (fst (scanTools (CameraX g) (Obstacles g) p1)))
                     (setObstacles
                        (snd (scanTools (CameraX g) (Obstacles g) p1))
                        (setPlayer (Some p1) g))))
        as (-> & -> & -> & _).
      cbn [MapItems Obstacles Game_Player setPlayer setObstacles].
      destruct (scanTools_keeps (CameraX g) (Obstacles g) p1) as (H1 & H2 & H3).
      repeat split; auto; discriminate.
  - eexists. split; [reflexivity|].
    destruct (updateCamera_fields g) as (-> & -> & -> & _).
    rewrite Hp. repeat split; auto.
Qed.

(** X19: once the player is dead after its update, the game stands still:
    [Game.Update] leaves the entities, the camera and the lane cells as
    they are, and pauses the background music once: the latch
    [hasStoppedBGM] is set, and with the latch already set the music is
    not touched. *)
Theorem Game_Update_dead_player_freezes (keys : Keyboard) (g : Game) (p : Player) :
  Game_Player g = Some p ->
  let mapWidth := (inject_Z (Z.of_nat (length (MapItems g))) * mapItemWidth)%Q in
  let p' := Player_Update (Obstacles g) mapWidth (CameraX g) keys p in
  IsDead p' = true ->
  exists g',
    Game_Update keys g = Some g'
    /\ Game_Player g' = Some p'
    /\ Obstacles g' = Obstacles g /\ CameraX g' = CameraX g
    /\ MapItems g' = MapItems g
    /\ hasStoppedBGM g' = true
    /\ (hasStoppedBGM g = true -> bgmPlaying g' = bgmPlaying g)
    /\ (hasStoppedBGM g = false ->
        bgmPlaying g' = (fun _ => false) <$> bgmPlaying g).
Proof.
  intros Hp mapWidth p' Hdead. unfold Game_Update. rewrite Hp. cbv zeta.
  fold mapWidth. fold p'. rewrite Hdead.
  cbn [hasStoppedBGM setPlayer].
  destruct (hasStoppedBGM g) eqn:Hb; cbn [negb].
  - eexists. split; [reflexivity|]. simpl.
    repeat split; intros; first [reflexivity | assumption | discriminate].
  - eexists. split; [reflexivity|]. unfold PauseBGM. cbn [bgmPlaying setPlayer].
    destruct (bgmPlaying g) as [[|]|] eqn:Hbgm; simpl;
      repeat split; intros; first [reflexivity | assumption | discriminate].
Qed.

Lemma Game_Update_dead_player_freezes_witness :
  exists g',
    Game_Update spaceHeld gameOver = Some g'
    /\ Obstacles g' = Obstacles gameOver /\ CameraX g' = CameraX gameOver
    /\ bgmPlaying g' = Some false.
Proof.
  destruct (Game_Update_dead_player_freezes spaceHeld gameOver deadPlayer
              eq_refl eq_refl)
    as (g' & Hg & _ & Ho & Hc & _ & _ & _ & Hb).
  exists g'. split; [exact Hg|]. split; [exact Ho|]. split; [exact Hc|].
  exact (Hb eq_refl).
Defined.

(** X20: a pickup is consumed once: when the player is flying, or touches
    no pickup, the result of [removeTouchedTools] holds no pickup that
    overlaps the resulting player, and a second call changes nothing. *)
Theorem removeTouchedTools_settles (g : Game) (p : Player) :
  Game_Player g = Some p ->
  IsFlying p = true \/ existsb (touches p) (Obstacles g) = false ->
  exists g1 p1,
    removeTouchedTools g = Some g1
    /\ Game_Player g1 = Some p1
    /\ existsb (touches p1) (Obstacles g1) = false
    /\ removeTouchedTools g1 = Some g1.
Proof.
  intros Hp Hcase.
  assert (exists p1 l1,
            scanTools (CameraX g) (Obstacles g) p = (p1, l1)
            /\ existsb (touches p1) l1 = false) as (p1 & l1 & Hscan & Hnone).
  { destruct Hcase as [Hf|Hn].
    - rewrite (scanTools_flying _ _ _ Hf). eexists; eexists.
      split; [reflexivity|].
      assert (forall q, X q = X p -> Y q = Y p ->
                existsb (touches q)
                  (List.filter (fun o => negb (touches p o)) (Obstacles g))
                = false) as Hgen.
      { intros q Hx Hy. induction (Obstacles g) as [|o l IH]; [reflexivity|].
        simpl. destruct (touches p o) eqn:Ht; simpl; [exact IH|].
        now rewrite (touches_box p q o Hx Hy), Ht. }
      destruct (existsb (touches p) (Obstacles g)); now apply Hgen.
    - rewrite (scanTools_untouched _ _ _ Hn). eauto. }
  exists (setPlayer (Some p1) (setObstacles l1 g)), p1.
  rewrite (removeTouchedTools_scanTools g p Hp), Hscan. cbn [fst snd].
  split; [reflexivity|]. split; [reflexivity|]. split; [exact Hnone|].
  rewrite (removeTouchedTools_scanTools
             (setPlayer (Some p1) (setObstacles l1 g)) p1 eq_refl).
  cbn [CameraX Obstacles setPlayer setObstacles].
  now rewrite (scanTools_untouched _ _ _ Hnone).
Qed.

Lemma removeTouchedTools_settles_witness :
  exists g1 p1,
    removeTouchedTools gameFlyingOverTool = Some g1
    /\ Game_Player g1 = Some p1
    /\ existsb (touches p1) (Obstacles g1) = false
    /\ removeTouchedTools g1 = Some g1.
Proof.
  apply (removeTouchedTools_settles gameFlyingOverTool flyingMidway eq_refl).
  left. reflexivity.
Defined.

(** ** Building the entities *)

Lemma initObstacles_flat_map (img : Images) (g : Game) :
  Obstacles (initObstacles img g) = flat_map (cellObstacles img) (MapItems g).
Proof.
  unfold initObstacles. cbn [Obstacles setObstacles].
  assert (forall items acc,
            fold_left (fun acc item => acc ++ cellObstacles img item) items acc
            = acc ++ flat_map (cellObstacles img) items) as H.
  { induction items as [|it items IH]; intros acc; simpl.
    - now rewrite app_nil_r.
    - now rewrite IH, app_assoc. }
  apply (H _ []).
Qed.

Lemma cellObstacles_counts (img : Images) (item : MapItem) :
  let l := cellObstacles img item in
  length (List.filter (hasType ObstacleTypeGrass) l)
  = (if HasRoad item then 1 else 0)%nat
  /\ length (List.filter (hasType ObstacleTypeObstacle) l)
     = (if HasRoad item && HasObstacle item then 1 else 0)%nat
  /\ length (List.filter (hasType ObstacleTypeMonster) l)
     = (if HasRoad item && HasMonster item then 1 else 0)%nat
  /\ length (List.filter (hasType ObstacleTypeTool) l)
     = (if HasRoad item && HasTool item then 1 else 0)%nat
  /\ (length l <= 4)%nat
  /\ (HasObstacle item && HasMonster item = false -> length l <= 3)%nat.
Proof.
  unfold cellObstacles.
  destruct (HasRoad item), (HasObstacle item), (HasMonster item),
    (HasTool item); simpl; repeat split; intros; try lia; discriminate.
Qed.

Lemma filter_length_flat_map {A B} (f : A -> list B) (t : B -> bool)
    (c : A -> bool) (l : list A) :
  (forall a, length (List.filter t (f a)) = if c a then 1%nat else 0%nat) ->
  length (List.filter t (flat_map f l)) = length (List.filter c l).
Proof.
  intros H. induction l as [|a l IH]; simpl; [reflexivity|].
  rewrite List.filter_app, length_app, IH, H.
  destruct (c a); reflexivity.
Qed.


Lemma GenMap_cells_exclusive (count : Z) (rnd : Rand) :
  exists cells,
    GenMap count rnd = Some cells
    /\ length cells = Z.to_nat count
    /\ Forall (fun c => HasObstacle c && HasMonster c = false) cells
    /\ (forall j c, cells !! j = Some c -> (j < 10)%nat -> HasRoad c = true).
Proof.
  destruct (GenMap_spec count rnd) as (l & Hl & Hlen & _ & H10 & _).
  exists l. split; [exact Hl|]. split; [exact Hlen|]. split; [|exact H10].
  destruct (Z_le_gt_dec count 0) as [Hle|Hgt].
  - assert (l = []) as -> by (apply length_zero_iff_nil; lia). constructor.
  - destruct (GenMap_cleared count rnd) as (l' & Hl' & Hcl & _); [lia|].
    assert (l' = l) as -> by congruence.
    apply Forall_lookup. intros j c' Hc'.
    destruct (Forall2_lookup_r _ _ _ _ _ Hcl Hc') as (c & Hc & Hcc).
    apply cleared_fields in Hcc as (_ & _ & Hob & _ & Hmo).
    pose proof (gap_exclusive _ (genLoop_gap (Z.to_nat count) rnd)) as He.
    pose proof (proj1 (Forall_lookup _ _) He j c Hc) as Hex. simpl in Hex.
    rewrite Hob. destruct (HasObstacle c); [|reflexivity].
    destruct (HasMonster c') eqn:Hm; [|reflexivity].
    rewrite (Hmo eq_refl) in Hex. discriminate.
Qed.

(** X22: the entities of a generated level: at most 3 per cell (the
    obstacle and the monster of a cell exclude each other), and for a
    level of at least 10 cells at least 10 ground entities. *)
Theorem initObstacles_of_generated_level
    (img : Images) (count : Z) (rnd : Rand) :
  exists cells,
    GenMap count rnd = Some cells
    /\ forall g, MapItems g = cells ->
         let l := Obstacles (initObstacles img g) in
         (length l <= 3 * length cells)%nat
         /\ ((10 <= count)%Z ->
             (10 <= length (List.filter (hasType ObstacleTypeGrass) l))%nat).
Proof.
  destruct (GenMap_cells_exclusive count rnd) as (cells & Hg & Hlen & Hex & H10).
  exists cells. split; [exact Hg|]. intros g Hcells l. subst l.
  rewrite initObstacles_flat_map, Hcells. split.
  - clear - Hex. induction Hex as [|c cells Hc _ IH]; simpl; [lia|].
    rewrite length_app.
    pose proof (cellObstacles_counts img c) as (_ & _ & _ & _ & _ & H3).
    specialize (H3 Hc). lia.
  - intros Hcount.
    rewrite (filter_length_flat_map _ _ HasRoad)
      by (intros a; apply cellObstacles_counts).
    rewrite <- (take_drop 10 cells), List.filter_app, length_app.
    assert (List.filter HasRoad (take 10 cells) = take 10 cells) as ->.
    { assert (Forall (fun c => HasRoad c = true) (take 10 cells)) as Hall.
      { apply Forall_lookup. intros j c Hj.
        apply lookup_take_Some in Hj as [Hj Hlt]. eauto. }
      induction Hall as [|c l Hc _ IH]; simpl; [reflexivity|].
      now rewrite Hc, IH. }
    rewrite length_take. lia.
Qed.

Lemma initObstacles_of_generated_level_witness :
  exists cells,
    GenMap 12 (constStream (0 # 1)) = Some cells
    /\ (10 <= length (List.filter (hasType ObstacleTypeGrass)
                       (Obstacles (initObstacles someImages (emptyGame cells)))))%nat.
Proof.
  destruct (initObstacles_of_generated_level someImages 12 (constStream (0 # 1)))
    as (cells & Hg & H).
  exists cells. split; [exact Hg|].
  apply (H (emptyGame cells) eq_refl). lia.
Defined.

(** X23: where [initObstacles] puts the entities: every ground entity has
    its top edge on one line, the bottom of the window minus the height of
    the grass image; every obstacle entity stands on that line; every
    pickup box spans y = 120 to 240; the box of a monster is 70 by 145,
    shifted by (25, 12) from where it is drawn, while every other entity
    is drawn where its box is. *)
Theorem initObstacles_geometry (img : Images) (g : Game) (o : Obstacle) :
  In o (Obstacles (initObstacles img g)) ->
  let floor := (inject_Z windowHeight - grassHeight img)%Q in
  let box := GetCollisionBox o in
  match Obstacle_Type o with
  | ObstacleTypeGrass =>
      top box = floor /\ Obstacle_X o = Dx o /\ Obstacle_Y o = Dy o
  | ObstacleTypeObstacle =>
      (bottom box == floor)%Q /\ Obstacle_X o = Dx o /\ Obstacle_Y o = Dy o
  | ObstacleTypeMonster =>
      Width o = 70%Q /\ Height o = 145%Q
      /\ Obstacle_X o = (Dx o + 25)%Q /\ Obstacle_Y o = (Dy o + 12)%Q
      /\ Dy o = (floor - monsterHeight img)%Q
  | ObstacleTypeTool =>
      top box = 120%Q /\ (bottom box == 240)%Q
      /\ Obstacle_X o = Dx o /\ Obstacle_Y o = Dy o
  end.
Proof.
  intros Ho floor box. subst box.
  rewrite initObstacles_flat_map in Ho.
  apply in_flat_map in Ho as (c & _ & Ho).
  unfold cellObstacles in Ho. fold floor in Ho.
  destruct (HasRoad c); [|destruct Ho].
  destruct (HasObstacle c), (HasMonster c), (HasTool c); simpl in Ho;
    repeat (destruct Ho as [<-|Ho];
            [cbn [Obstacle_Type NewObstacle GetCollisionBox
                    Obstacle_CollisionBox top bottom Obstacle_X Obstacle_Y
                    Dx Dy Width Height];
             repeat split; try reflexivity; lra|]);
    destruct Ho.
Qed.

Lemma initObstacles_geometry_witness :
  (bottom (GetCollisionBox blockOnTile) == 720 - 120)%Q.
Proof.
  apply (initObstacles_geometry someImages
           (emptyGame [mkMapItem 5 true true false false]) blockOnTile).
  right. left. reflexivity.
Defined.
